(** * The chat-provider manager of vscode-chat (src/manager/index.ts)

    A shallow embedding of the [Manager] class: the provider-to-session
    registry (a JavaScript [Map], kept in insertion order), the collaborators
    the manager talks to (persistent store, secret store, views, the Live
    Share contact bridge) and the manager's methods, written as programs of a
    small state-and-exception monad over an explicit world. *)

From stdpp Require Import gmap strings list fin_maps.

Set Default Proof Using "Type".
Open Scope string_scope.
Open Scope list_scope.
Open Scope nat_scope.

(** ** JavaScript values the manager branches on *)

(** [!!s] for a string: only the empty string is falsy. *)
Definition truthy (s : string) : bool := bool_decide (s ≠ "").

(** [!!o] for [string | undefined]. *)
Definition truthy_opt (o : option string) : bool :=
  match o with
  | Some s => truthy s
  | None => false
  end.

(** [Array.prototype.indexOf]: the first position holding [item]; JavaScript
    answers -1 when there is none, here [None]. *)
Fixpoint indexOfFrom (item : string) (l : list string) (i : nat) : option nat :=
  match l with
  | [] => None
  | x :: l' => if decide (x = item) then Some i else indexOfFrom item l' (S i)
  end.

Definition indexOf (l : list string) (item : string) : option nat :=
  indexOfFrom item l 0.

(** [Array.prototype.filter] with the two-argument callback [(item, pos)]. *)
Fixpoint filterFrom {A} (f : A → nat → bool) (l : list A) (pos : nat) : list A :=
  match l with
  | [] => []
  | x :: l' => if f x pos then x :: filterFrom f l' (S pos) else filterFrom f l' (S pos)
  end.

Definition filterPos {A} (f : A → nat → bool) (l : list A) : list A :=
  filterFrom f l 0.

(** ** The registry: a JavaScript [Map] with string keys

    Entries are kept in insertion order; [set] on a present key overwrites
    the value in place, on an absent key appends. *)
Module JSMap.
Section ops.
Context {V : Type}.

Fixpoint get (k : string) (m : list (string * V)) : option V :=
  match m with
  | [] => None
  | (k', v) :: m' => if decide (k' = k) then Some v else get k m'
  end.

Fixpoint set (k : string) (v : V) (m : list (string * V)) : list (string * V) :=
  match m with
  | [] => [(k, v)]
  | (k', v') :: m' =>
      if decide (k' = k) then (k, v) :: m' else (k', v') :: set k v m'
  end.

Fixpoint delete (k : string) (m : list (string * V)) : list (string * V) :=
  match m with
  | [] => []
  | (k', v) :: m' =>
      if decide (k' = k) then delete k m' else (k', v) :: delete k m'
  end.

Definition keys (m : list (string * V)) : list string := m.*1.
Definition entries (m : list (string * V)) : list (string * V) := m.

(** Keys of a [Map] are pairwise distinct. *)
Definition wf (m : list (string * V)) : Prop := NoDup (keys m).
End ops.
End JSMap.

(** ** Data model *)

(** [Providers.vsls], the provider id of the Live Share chat. *)
Definition vsls : string := "vsls".

Record Team := { team_id : string; team_name : string }.
Record User := { user_id : string; user_name : string }.
Record Channel := { channel_id : string; channel_name : string }.
Record ChannelLabel := { label_text : string; label_provider : string }.

Record CurrentUser := {
  cu_id : string;
  cu_provider : string;
  cu_currentTeamId : option string
}.

(** The chat backends [instantiateChatProvider] can build. *)
Inductive IChatProvider :=
| DiscordChatProvider (token : string)
| SlackChatProvider (token : string)
| VslsChatProvider.

(** Modelled from the spec: the session class [ChatProviderManager]
    (chatManager.ts) is not part of the sources. A session is the object built
    by [new ChatProviderManager(store, provider, chatProvider, manager)]: it has
    an identity, wraps one backend, and answers [getChannelLabels()] and
    [getTeams()] from its own caches. *)
Record ChatProviderManager := {
  cpm_sid : nat;
  cpm_providerName : string;
  cpm_chatProvider : IChatProvider;
  cpm_channelLabels : list ChannelLabel;
  cpm_teams : list Team
}.

(** Modelled from the spec: [VslsContactProvider] (vslsContactProvider.ts) is
    not part of the sources. The manager reads its [isInitialized] flag and
    knows which provider it was built for. *)
Record VslsContactProvider := {
  vcp_presenceProvider : string;
  vcp_isInitialized : bool
}.

(** Modelled from the spec: the persistent store behind [IStore] is not part
    of the sources. It keeps the current-user records (one per provider, looked
    up by the record's provider), and per provider the cached users, the cached
    channels and the last selected channel. *)
Record Store := {
  st_currentUserInfo : list CurrentUser;
  st_users : gmap string (gmap string User);
  st_channels : gmap string (list Channel);
  st_lastChannelId : gmap string string
}.

Module IStore.
Definition getCurrentUserForAll (s : Store) : list CurrentUser :=
  st_currentUserInfo s.

Definition getCurrentUser (s : Store) (provider : string) : option CurrentUser :=
  List.find (λ u, bool_decide (cu_provider u = provider)) (st_currentUserInfo s).

Definition getUsers (s : Store) (provider : string) : gmap string User :=
  default ∅ (st_users s !! provider).

Definition getChannels (s : Store) (provider : string) : list Channel :=
  default [] (st_channels s !! provider).

Definition getLastChannelId (s : Store) (provider : string) : option string :=
  st_lastChannelId s !! provider.

Definition updateUsers (provider : string) (users : gmap string User) (s : Store) : Store :=
  {| st_currentUserInfo := st_currentUserInfo s;
     st_users := <[provider := users]> (st_users s);
     st_channels := st_channels s;
     st_lastChannelId := st_lastChannelId s |}.

Definition updateChannels (provider : string) (channels : list Channel) (s : Store) : Store :=
  {| st_currentUserInfo := st_currentUserInfo s;
     st_users := st_users s;
     st_channels := <[provider := channels]> (st_channels s);
     st_lastChannelId := st_lastChannelId s |}.

Definition updateLastChannelId (provider : string) (channelId : option string) (s : Store) : Store :=
  {| st_currentUserInfo := st_currentUserInfo s;
     st_users := st_users s;
     st_channels := st_channels s;
     st_lastChannelId :=
       match channelId with
       | Some c => <[provider := c]> (st_lastChannelId s)
       | None => base.delete provider (st_lastChannelId s)
       end |}.

(** Forgets everything persisted for one provider. *)
Definition clearProviderState (provider : string) (s : Store) : Store :=
  {| st_currentUserInfo :=
       List.filter (λ u, bool_decide (cu_provider u ≠ provider)) (st_currentUserInfo s);
     st_users := <[provider := ∅]> (st_users s);
     st_channels := <[provider := []]> (st_channels s);
     st_lastChannelId := base.delete provider (st_lastChannelId s) |}.
End IStore.

(** ** The manager object and the world around it *)

Record Manager := {
  isTokenInitialized : bool;
  vslsContactProvider : option VslsContactProvider;
  chatProviders : list (string * ChatProviderManager);
  store : Store
}.

(** The one command of [SelfCommands] the manager executes. *)
Inductive SelfCommand := RESET_STORE.

(** Calls that leave the manager: they are recorded in the order made. *)
Inductive Event :=
| ClearToken (provider : string)
| ExecuteCommand (command : SelfCommand) (newProvider : option string)
| NewChatProviderManager (provider : string) (sid : nat)
| Destroy (cp : ChatProviderManager)
| ViewsInitialize (enabledProviders : list string)
    (providerTeams : list (string * list Team))
| ContactRegister (presenceProvider : string)
| NotifySelfContact (presenceProvider : string) (currentUser : option User)
| NotifyAvailableUsers (presenceProvider : string) (userId : string)
    (users : gmap string User).

(** The world a method runs in: the manager's own fields, the answer of
    [hasVslsExtension()], the secret store read by [ConfigHelper.getToken] and
    written by [ConfigHelper.clearToken], the next object identity, whether
    [register()] leaves a contact provider initialized (decided by Live Share),
    the channel labels and the teams a session reports right after its
    construction from a store for a provider (decided by the
    [ChatProviderManager] class), and the calls made so far. *)
Record World := {
  mgr : Manager;
  hasVslsExtension : bool;
  tokens : gmap string string;
  nextSid : nat;
  registerInitializes : bool;
  initialChannelLabels : Store → string → list ChannelLabel;
  initialTeams : Store → string → list Team;
  trace : list Event
}.

Definition with_mgr (f : Manager → Manager) (w : World) : World :=
  {| mgr := f (mgr w); hasVslsExtension := hasVslsExtension w;
     tokens := tokens w; nextSid := nextSid w;
     registerInitializes := registerInitializes w;
     initialChannelLabels := initialChannelLabels w;
     initialTeams := initialTeams w; trace := trace w |}.

Definition with_tokens (f : gmap string string → gmap string string) (w : World) : World :=
  {| mgr := mgr w; hasVslsExtension := hasVslsExtension w;
     tokens := f (tokens w); nextSid := nextSid w;
     registerInitializes := registerInitializes w;
     initialChannelLabels := initialChannelLabels w;
     initialTeams := initialTeams w; trace := trace w |}.

Definition with_trace (f : list Event → list Event) (w : World) : World :=
  {| mgr := mgr w; hasVslsExtension := hasVslsExtension w;
     tokens := tokens w; nextSid := nextSid w;
     registerInitializes := registerInitializes w;
     initialChannelLabels := initialChannelLabels w;
     initialTeams := initialTeams w; trace := f (trace w) |}.

Definition bump_sid (w : World) : World :=
  {| mgr := mgr w; hasVslsExtension := hasVslsExtension w;
     tokens := tokens w; nextSid := S (nextSid w);
     registerInitializes := registerInitializes w;
     initialChannelLabels := initialChannelLabels w;
     initialTeams := initialTeams w; trace := trace w |}.

Definition set_isTokenInitialized (b : bool) (m : Manager) : Manager :=
  {| isTokenInitialized := b; vslsContactProvider := vslsContactProvider m;
     chatProviders := chatProviders m; store := store m |}.

Definition set_vslsContactProvider (v : option VslsContactProvider) (m : Manager) : Manager :=
  {| isTokenInitialized := isTokenInitialized m; vslsContactProvider := v;
     chatProviders := chatProviders m; store := store m |}.

Definition upd_chatProviders
    (f : list (string * ChatProviderManager) → list (string * ChatProviderManager))
    (m : Manager) : Manager :=
  {| isTokenInitialized := isTokenInitialized m;
     vslsContactProvider := vslsContactProvider m;
     chatProviders := f (chatProviders m); store := store m |}.

Definition upd_store (f : Store → Store) (m : Manager) : Manager :=
  {| isTokenInitialized := isTokenInitialized m;
     vslsContactProvider := vslsContactProvider m;
     chatProviders := chatProviders m; store := f (store m) |}.

(** ** A state-and-exception monad

    A method either completes normally or throws; what it did to the world
    before throwing stays done. *)
Inductive Completion (A : Type) :=
| Normal (a : A)
| Throw (msg : string).
Arguments Normal {A} a.
Arguments Throw {A} msg.

Definition M (A : Type) : Type := World → Completion A * World.

Definition ret {A} (a : A) : M A := λ w, (Normal a, w).
Definition throw {A} (msg : string) : M A := λ w, (Throw msg, w).
Definition bind {A B} (c : M A) (k : A → M B) : M B :=
  λ w, match c w with
       | (Normal a, w') => k a w'
       | (Throw e, w') => (Throw e, w')
       end.
Definition gets {A} (f : World → A) : M A := λ w, (Normal (f w), w).
Definition modify (f : World → World) : M unit := λ w, (Normal tt, f w).
Definition lift {A} (c : Completion A) : M A := λ w, (c, w).

Global Instance M_ret : MRet M := @ret.
Global Instance M_bind : MBind M := λ A B k c, bind c k.

(** [for (const x of l) body], the loop's local variables threaded as [s]. *)
Fixpoint forOf {A S} (l : list A) (body : S → A → M S) (s : S) : M S :=
  match l with
  | [] => ret s
  | x :: l' => s' ← body s x; forOf l' body s'
  end.

Definition emit (e : Event) : M unit := modify (with_trace (λ t, t ++ [e])).

(** ** Collaborators *)

Module ConfigHelper.
Definition getToken (provider : string) : M (option string) :=
  gets (λ w, tokens w !! provider).

Definition clearToken (provider : string) : M unit :=
  modify (with_tokens (base.delete provider));;
  emit (ClearToken provider).
End ConfigHelper.

(** [new ChatProviderManager(this.store, provider, chatProvider, this)]: a
    session with a fresh identity that keeps the provider name and the backend
    it is given. The class is outside the sources: which channel labels and
    teams the new session reports is left to the world. *)
Definition newChatProviderManager (provider : string) (chatProvider : IChatProvider)
    : M ChatProviderManager :=
  sid ← gets nextSid;
  store ← gets (λ w, store (mgr w));
  channelLabels ← gets (λ w, initialChannelLabels w store provider);
  teams ← gets (λ w, initialTeams w store provider);
  modify bump_sid;;
  emit (NewChatProviderManager provider sid);;
  ret {| cpm_sid := sid; cpm_providerName := provider;
         cpm_chatProvider := chatProvider;
         cpm_channelLabels := channelLabels; cpm_teams := teams |}.

(** ** Methods of [Manager] *)

Definition getEnabledProviders (w : World) : list string :=
  let currentUserInfos := IStore.getCurrentUserForAll (store (mgr w)) in
  let providers := map cu_provider currentUserInfos in
  let providers := if hasVslsExtension w then providers ++ [vsls] else providers in
  let uniqueProviders :=
    filterPos (λ item pos, bool_decide (indexOf providers item = Some pos)) providers in
  uniqueProviders.

Definition isProviderEnabled (w : World) (provider : string) : bool :=
  match JSMap.get provider (chatProviders (mgr w)) with
  | Some _ => true
  | None => false
  end.

Definition getChatProvider (w : World) (providerName : string) : option ChatProviderManager :=
  JSMap.get providerName (chatProviders (mgr w)).

Definition instantiateChatProvider (token provider : string) : Completion IChatProvider :=
  if decide (provider = "discord") then Normal (DiscordChatProvider token)
  else if decide (provider = "slack") then Normal (SlackChatProvider token)
  else if decide (provider = "vsls") then Normal VslsChatProvider
  else Throw ("unsupport chat provider: " +:+ provider).

Definition initializeViewsManager : M unit :=
  enabledProviders ← gets (λ w, JSMap.keys (chatProviders (mgr w)));
  providerTeams ←
    forOf enabledProviders
      (λ providerTeams provider,
         chatProvider ← gets (λ w, JSMap.get provider (chatProviders (mgr w)));
         match chatProvider with
         | Some cp => ret (JSMap.set provider (cpm_teams cp) providerTeams)
         | None => ret providerTeams
         end) [];
  emit (ViewsInitialize enabledProviders providerTeams).

(** The body of the [for (const provider of enabledProviders)] loop of
    [initializeToken]. *)
Definition tokenStep : unit → string → M unit :=
  λ _ provider,
    if truthy provider then
      token ← ConfigHelper.getToken provider;
      match token with
      | Some token =>
          if truthy token then
            existingProvider ←
              gets (λ w, JSMap.get provider (chatProviders (mgr w)));
            match existingProvider with
            | None =>
                chatProvider ← lift (instantiateChatProvider token provider);
                cp ← newChatProviderManager provider chatProvider;
                modify (with_mgr (upd_chatProviders (JSMap.set provider cp)))
            | Some _ => ret tt
            end;;
            modify (with_mgr (set_isTokenInitialized true))
          else ret tt
      | None => ret tt
      end
    else ret tt.

Definition initializeToken (newProvider : option string) : M unit :=
  enabledProviders ← gets getEnabledProviders;
  let enabledProviders :=
    match newProvider with
    | Some np => if truthy np then enabledProviders ++ [np] else enabledProviders
    | None => enabledProviders
    end in
  forOf enabledProviders tokenStep tt;;
  initializeViewsManager.

(** [await this.vslsContactProvider.register()]: registers with Live Share,
    which decides whether the contact provider is initialized afterwards. *)
Definition register (presenceProvider : string) : M unit :=
  emit (ContactRegister presenceProvider);;
  init ← gets registerInitializes;
  modify (with_mgr (set_vslsContactProvider
    (Some {| vcp_presenceProvider := presenceProvider; vcp_isInitialized := init |}))).

Definition initializeVslsContactProvider : M unit :=
  enabledProviders ← gets getEnabledProviders;
  let nonVslsProviders :=
    List.filter (λ provider, bool_decide (provider ≠ "vsls")) enabledProviders in
  hasVsls ← gets hasVslsExtension;
  if hasVsls && bool_decide (0 < length nonVslsProviders) then
    match head nonVslsProviders with
    | Some presenceProvider =>
        existing ← gets (λ w, vslsContactProvider (mgr w));
        let isNotAlreadyInit :=
          match existing with
          | None => true
          | Some v => negb (vcp_isInitialized v)
          end in
        currentUserInfo ←
          gets (λ w, IStore.getCurrentUser (store (mgr w)) presenceProvider);
        users ← gets (λ w, IStore.getUsers (store (mgr w)) presenceProvider);
        match currentUserInfo with
        | Some currentUserInfo =>
            if isNotAlreadyInit then
              modify (with_mgr (set_vslsContactProvider
                (Some {| vcp_presenceProvider := presenceProvider;
                         vcp_isInitialized := false |})));;
              register presenceProvider;;
              let userId := cu_id currentUserInfo in
              let currentUser := users !! userId in
              emit (NotifySelfContact presenceProvider currentUser);;
              emit (NotifyAvailableUsers presenceProvider userId users)
            else ret tt
        | None => ret tt
        end
    | None => ret tt
    end
  else ret tt.

(** The body of the loop of [signout]; [hasSignedOut] is the loop's flag. *)
Definition signoutStep (hasSignedOut : bool) (entry : string * ChatProviderManager)
    : M bool :=
  let providerName := entry.1 in
  if bool_decide (providerName ≠ "vsls") then
    ConfigHelper.clearToken providerName;;
    ret true
  else ret hasSignedOut.

Definition signout : M unit :=
  entries ← gets (λ w, JSMap.entries (chatProviders (mgr w)));
  hasSignedOut ← forOf entries signoutStep false;
  if (hasSignedOut : bool) then emit (ExecuteCommand RESET_STORE None) else ret tt.

(** The callback of [enabledProviders.forEach] in [clearAll]. *)
Definition clearAllStep (_ : unit) (provider : string) : M unit :=
  let isNotVsls := bool_decide (provider ≠ "vsls") in
  if isNotVsls then
    modify (with_mgr (upd_store (IStore.clearProviderState provider)));;
    chatProvider ← gets (λ w, JSMap.get provider (chatProviders (mgr w)));
    match chatProvider with
    | Some cp =>
        emit (Destroy cp);;
        modify (with_mgr (upd_chatProviders (JSMap.delete provider)))
    | None => ret tt
    end
  else ret tt.

Definition clearAll : M unit :=
  enabledProviders ← gets (λ w, JSMap.keys (chatProviders (mgr w)));
  forOf enabledProviders clearAllStep tt;;
  modify (with_mgr (set_isTokenInitialized false)).

Definition clearOldWorkspace (provider : string) : M unit :=
  modify (with_mgr (upd_store (IStore.updateUsers provider ∅)));;
  modify (with_mgr (upd_store (IStore.updateChannels provider [])));;
  modify (with_mgr (upd_store (IStore.updateLastChannelId provider None))).

Definition getChannelLabels (w : World) (provider : option string) : list ChannelLabel :=
  fold_left
    (λ channelLabels entry,
       let cp := entry.2 in
       let providerName := entry.1 in
       if negb (truthy_opt provider) || bool_decide (provider = Some providerName)
       then channelLabels ++ cpm_channelLabels cp
       else channelLabels)
    (JSMap.entries (chatProviders (mgr w))) [].

(** ** Per-provider dispatch

    Every dispatch method looks the session up and, when there is one, hands
    the call over to it; what the session then does is the session's business. *)

Definition UserPresence := string.
Record MessageReply := { reply_userId : string; reply_timestamp : string }.
Definition ChannelMessagesWithUndefined := list (string * option string).

(** The session methods the manager forwards to. *)
Inductive SessionCall :=
| cp_isAuthenticated
| cp_createIMChannel (user : User)
| cp_getUserPresence (userId : string)
| cp_getCurrentUserPresence
| cp_loadChannelHistory (channelId : string)
| cp_updateReadMarker
| cp_sendMessage (text channelId : string) (parentTimestamp : option string)
| cp_updateSelfPresence (presence : UserPresence) (durationInMinutes : Z)
| cp_addReaction (channelId msgTimestamp userId reactionName : string)
| cp_removeReaction (channelId msgTimestamp userId reactionName : string)
| cp_fetchThreadReplies (parentTimestamp : string)
| cp_updateMessageReply (parentTimestamp channelId : string) (reply : MessageReply)
| cp_updateMessages (channelId : string) (messages : ChannelMessagesWithUndefined)
| cp_updateChannelMarked (channelId readTimestamp : string) (unreadCount : Z)
| cp_updatePresenceForUser (userId : string) (presence : UserPresence)
| cp_getChannel (channelId : option string)
| cp_fetchUsers
| cp_fetchChannels
| cp_messages
| cp_getUnreadCount (channel : Channel).

(** The values a dispatch method produces by itself. *)
Inductive JSValue :=
| undefined
| emptyObject
| number (n : Z)
| boolean (b : bool).

(** How a dispatch call ends: the manager completes it by itself, or its
    outcome is that of the call forwarded to the session. *)
Inductive Dispatched :=
| Completes (c : Completion JSValue)
| Forwarded (cp : ChatProviderManager) (call : SessionCall).

(** [const cp = this.chatProviders.get(p); return !!cp ? cp.call : dflt]. *)
Definition dispatchTo (w : World) (providerName : string)
    (call : SessionCall) (dflt : JSValue) : Dispatched :=
  let cp := JSMap.get providerName (chatProviders (mgr w)) in
  match cp with
  | Some cp => Forwarded cp call
  | None => Completes (Normal dflt)
  end.

Definition isAuthenticated (w : World) (providerName : option string) : Dispatched :=
  match providerName with
  | Some p => dispatchTo w p cp_isAuthenticated (boolean false)
  | None => Completes (Normal (boolean false))
  end.

Definition createIMChannel (w : World) (providerName : string) (user : User) :=
  dispatchTo w providerName (cp_createIMChannel user) undefined.

Definition getUserPresence (w : World) (provider userId : string) :=
  dispatchTo w provider (cp_getUserPresence userId) undefined.

Definition getCurrentUserPresence (w : World) (provider : string) :=
  dispatchTo w provider cp_getCurrentUserPresence undefined.

Definition loadChannelHistory (w : World) (providerName channelId : string) :=
  dispatchTo w providerName (cp_loadChannelHistory channelId) undefined.

Definition updateReadMarker (w : World) (providerName : string) :=
  dispatchTo w providerName cp_updateReadMarker undefined.

Definition sendMessage (w : World) (providerName text channelId : string)
    (parentTimestamp : option string) :=
  dispatchTo w providerName (cp_sendMessage text channelId parentTimestamp) undefined.

Definition updateSelfPresence (w : World) (providerName : string)
    (presence : UserPresence) (durationInMinutes : Z) :=
  dispatchTo w providerName (cp_updateSelfPresence presence durationInMinutes) undefined.

Definition addReaction (w : World)
    (providerName channelId msgTimestamp userId reactionName : string) :=
  dispatchTo w providerName
    (cp_addReaction channelId msgTimestamp userId reactionName) undefined.

Definition removeReaction (w : World)
    (providerName channelId msgTimestamp userId reactionName : string) :=
  dispatchTo w providerName
    (cp_removeReaction channelId msgTimestamp userId reactionName) undefined.

Definition fetchThreadReplies (w : World) (providerName parentTimestamp : string) :=
  dispatchTo w providerName (cp_fetchThreadReplies parentTimestamp) undefined.

Definition updateMessageReply (w : World)
    (providerName parentTimestamp channelId : string) (reply : MessageReply) :=
  dispatchTo w providerName (cp_updateMessageReply parentTimestamp channelId reply) undefined.

Definition updateMessages (w : World) (providerName channelId : string)
    (messages : ChannelMessagesWithUndefined) :=
  dispatchTo w providerName (cp_updateMessages channelId messages) undefined.

Definition updateChannelMarked (w : World) (provider channelId readTimestamp : string)
    (unreadCount : Z) :=
  dispatchTo w provider (cp_updateChannelMarked channelId readTimestamp unreadCount) undefined.

Definition updatePresenceForUser (w : World) (providerName userId : string)
    (presence : UserPresence) :=
  dispatchTo w providerName (cp_updatePresenceForUser userId presence) undefined.

Definition getChannel (w : World) (provider : string) (channelId : option string) :=
  dispatchTo w provider (cp_getChannel channelId) undefined.

Definition fetchUsers (w : World) (providerName : string) :=
  dispatchTo w providerName cp_fetchUsers undefined.

Definition fetchChannels (w : World) (providerName : string) :=
  dispatchTo w providerName cp_fetchChannels undefined.

Definition getMessages (w : World) (providerName : string) :=
  dispatchTo w providerName cp_messages emptyObject.

Definition getUnreadCount (w : World) (provider : string) (channel : Channel) :=
  dispatchTo w provider (cp_getUnreadCount channel) (number 0).

(** The dispatch methods, with the arguments that follow the provider name. *)
Inductive DispatchOp :=
| op_isAuthenticated
| op_createIMChannel (user : User)
| op_getUserPresence (userId : string)
| op_getCurrentUserPresence
| op_loadChannelHistory (channelId : string)
| op_updateReadMarker
| op_sendMessage (text channelId : string) (parentTimestamp : option string)
| op_updateSelfPresence (presence : UserPresence) (durationInMinutes : Z)
| op_addReaction (channelId msgTimestamp userId reactionName : string)
| op_removeReaction (channelId msgTimestamp userId reactionName : string)
| op_fetchThreadReplies (parentTimestamp : string)
| op_updateMessageReply (parentTimestamp channelId : string) (reply : MessageReply)
| op_updateMessages (channelId : string) (messages : ChannelMessagesWithUndefined)
| op_updateChannelMarked (channelId readTimestamp : string) (unreadCount : Z)
| op_updatePresenceForUser (userId : string) (presence : UserPresence)
| op_getChannel (channelId : option string)
| op_fetchUsers
| op_fetchChannels
| op_getMessages
| op_getUnreadCount (channel : Channel).

Definition dispatch (w : World) (providerName : string) (op : DispatchOp) : Dispatched :=
  match op with
  | op_isAuthenticated => isAuthenticated w (Some providerName)
  | op_createIMChannel user => createIMChannel w providerName user
  | op_getUserPresence userId => getUserPresence w providerName userId
  | op_getCurrentUserPresence => getCurrentUserPresence w providerName
  | op_loadChannelHistory channelId => loadChannelHistory w providerName channelId
  | op_updateReadMarker => updateReadMarker w providerName
  | op_sendMessage text channelId parentTimestamp =>
      sendMessage w providerName text channelId parentTimestamp
  | op_updateSelfPresence presence durationInMinutes =>
      updateSelfPresence w providerName presence durationInMinutes
  | op_addReaction channelId msgTimestamp userId reactionName =>
      addReaction w providerName channelId msgTimestamp userId reactionName
  | op_removeReaction channelId msgTimestamp userId reactionName =>
      removeReaction w providerName channelId msgTimestamp userId reactionName
  | op_fetchThreadReplies parentTimestamp => fetchThreadReplies w providerName parentTimestamp
  | op_updateMessageReply parentTimestamp channelId reply =>
      updateMessageReply w providerName parentTimestamp channelId reply
  | op_updateMessages channelId messages => updateMessages w providerName channelId messages
  | op_updateChannelMarked channelId readTimestamp unreadCount =>
      updateChannelMarked w providerName channelId readTimestamp unreadCount
  | op_updatePresenceForUser userId presence =>
      updatePresenceForUser w providerName userId presence
  | op_getChannel channelId => getChannel w providerName channelId
  | op_fetchUsers => fetchUsers w providerName
  | op_fetchChannels => fetchChannels w providerName
  | op_getMessages => getMessages w providerName
  | op_getUnreadCount channel => getUnreadCount w providerName channel
  end.

(** * Vocabulary of the statements *)

(** What a dispatch method answers for a provider without a session: three
    methods have a default of their own, the others answer [undefined]. *)
Definition absentResult (op : DispatchOp) : JSValue :=
  match op with
  | op_isAuthenticated => boolean false
  | op_getMessages => emptyObject
  | op_getUnreadCount _ => number 0
  | _ => undefined
  end.

(** The callback [getEnabledProviders] filters with: is [pos] the first
    position of [item] in [whole]? *)
Definition keepFirst (whole : list string) : string → nat → bool :=
  λ item pos, bool_decide (indexOf whole item = Some pos).

(** The provider ids the two sources of [getEnabledProviders] contribute. *)
Definition discovered (w : World) : list string :=
  map cu_provider (IStore.getCurrentUserForAll (store (mgr w)))
  ++ (if hasVslsExtension w then [vsls] else []).

Definition exec {A} (c : M A) (w : World) : World := (c w).2.
Definition outcome {A} (c : M A) (w : World) : Completion A := (c w).1.

Ltac run :=
  unfold exec, outcome, ConfigHelper.getToken, ConfigHelper.clearToken,
    newChatProviderManager, register, emit, mbind, M_bind, bind,
    gets, modify, ret, throw, lift;
  simpl.

Definition isNewSession (p : string) (e : Event) : bool :=
  match e with
  | NewChatProviderManager q _ => bool_decide (q = p)
  | _ => false
  end.

(** How many sessions were built for provider [p] so far. *)
Definition sessionsCreated (p : string) (w : World) : nat :=
  length (List.filter (isNewSession p) (trace w)).

Definition registry (w : World) : list (string * ChatProviderManager) :=
  chatProviders (mgr w).

(** Sessions built for [p], plus one as long as [p] has none: a session is
    only ever built for a provider that has none, and is registered at once. *)
Definition potential (p : string) (w : World) : nat :=
  sessionsCreated p w
  + match JSMap.get p (registry w) with Some _ => 0 | None => 1 end.

Record grows (w w' : World) : Prop := {
  grows_potential : ∀ p, potential p w' = potential p w;
  grows_keeps : ∀ p cp,
    JSMap.get p (registry w) = Some cp → JSMap.get p (registry w') = Some cp;
  grows_wf : JSMap.wf (registry w) → JSMap.wf (registry w');
  grows_tokens : tokens w' = tokens w;
  grows_store : store (mgr w') = store (mgr w);
  grows_hasVsls : hasVslsExtension w' = hasVslsExtension w;
  grows_contact : vslsContactProvider (mgr w') = vslsContactProvider (mgr w)
}.

(** The providers the loop of [initializeToken] walks through. *)
Definition candidates (newProvider : option string) (w : World) : list string :=
  match newProvider with
  | Some np => if truthy np then getEnabledProviders w ++ [np] else getEnabledProviders w
  | None => getEnabledProviders w
  end.

(** Whether the loop wants a session for [provider]: the id and its stored
    token are both truthy. *)
Definition needs (w : World) (provider : string) : bool :=
  truthy provider && truthy_opt (tokens w !! provider).

(** Worlds that differ at most in [isTokenInitialized]. *)
Record sameSessions (w w' : World) : Prop := {
  same_registry : registry w' = registry w;
  same_trace : trace w' = trace w;
  same_tokens : tokens w' = tokens w;
  same_store : store (mgr w') = store (mgr w);
  same_hasVsls : hasVslsExtension w' = hasVslsExtension w;
  same_nextSid : nextSid w' = nextSid w;
  same_contact : vslsContactProvider (mgr w') = vslsContactProvider (mgr w)
}.

(** The providers [signout] clears the credential of: the registered ones
    other than vsls, in registration order. *)
Definition signedOut (w : World) : list string :=
  List.filter (λ p, bool_decide (p ≠ "vsls")) (JSMap.keys (registry w)).

Definition clearTokens (ps : list string) (t : gmap string string) : gmap string string :=
  foldl (λ t p, base.delete p t) t ps.

(** How often the global reset command was executed. *)
Definition resets (t : list Event) : nat :=
  length (List.filter (λ e, match e with ExecuteCommand RESET_STORE _ => true | _ => false end) t).

Definition isDestroy (e : Event) : bool :=
  match e with Destroy _ => true | _ => false end.

Definition deleteAll (ks : list string) (m : list (string * ChatProviderManager)) :=
  foldl (λ m k, JSMap.delete k m) m ks.

Definition clearStates (ks : list string) (s : Store) : Store :=
  foldl (λ s k, IStore.clearProviderState k s) s ks.

(** The sessions [clearAll] destroys while walking the key snapshot [ks] of a
    registry [m]: the one each key other than vsls still maps to. *)
Fixpoint destroyed (ks : list string) (m : list (string * ChatProviderManager))
    : list ChatProviderManager :=
  match ks with
  | [] => []
  | k :: ks' =>
      if bool_decide (k ≠ "vsls") then
        match JSMap.get k m with
        | Some cp => cp :: destroyed ks' (JSMap.delete k m)
        | None => destroyed ks' m
        end
      else destroyed ks' m
  end.

Definition nonVslsProviders (w : World) : list string :=
  List.filter (λ provider, bool_decide (provider ≠ "vsls")) (getEnabledProviders w).

Definition isNotAlreadyInit (w : World) : bool :=
  match vslsContactProvider (mgr w) with
  | None => true
  | Some v => negb (vcp_isInitialized v)
  end.

(** The world after a contact provider has been built for [p], registered,
    and told about the current user [cu] and the users of [p]. *)
Definition bound (p : string) (cu : CurrentUser) (w : World) : World :=
  let users := IStore.getUsers (store (mgr w)) p in
  with_trace
    (λ t, t ++ [ContactRegister p;
                NotifySelfContact p (users !! cu_id cu);
                NotifyAvailableUsers p (cu_id cu) users])
    (with_mgr
       (set_vslsContactProvider
          (Some {| vcp_presenceProvider := p;
                   vcp_isInitialized := registerInitializes w |})) w).

(** ** Sample worlds *)

Definition emptyStore : Store :=
  {| st_currentUserInfo := []; st_users := ∅; st_channels := ∅; st_lastChannelId := ∅ |}.

Definition alice : User := {| user_id := "U1"; user_name := "alice" |}.
Definition general : Channel := {| channel_id := "C1"; channel_name := "general" |}.

(** A user signed in to Slack and to Discord, with Live Share installed and a
    stale current-user record for vsls; no session has been built yet. *)
Definition signedInStore : Store :=
  {| st_currentUserInfo :=
       [ {| cu_id := "U1"; cu_provider := "slack"; cu_currentTeamId := Some "T1" |};
         {| cu_id := "V1"; cu_provider := "vsls"; cu_currentTeamId := None |};
         {| cu_id := "D1"; cu_provider := "discord"; cu_currentTeamId := None |} ];
     st_users := {[ "slack" := {[ "U1" := alice ]} ]};
     st_channels := {[ "slack" := [general]; "discord" := [general] ]};
     st_lastChannelId := {[ "slack" := "C1"; "discord" := "C1" ]} |}.

Definition signedIn : World :=
  {| mgr := {| isTokenInitialized := false; vslsContactProvider := None;
               chatProviders := []; store := signedInStore |};
     hasVslsExtension := true;
     tokens := {[ "slack" := "xoxp-1"; "discord" := "d-1"; "vsls" := "vsls-token" ]};
     nextSid := 0; registerInitializes := true;
     initialChannelLabels := λ _ _, []; initialTeams := λ _ _, []; trace := [] |}.

Definition slackSession : ChatProviderManager :=
  {| cpm_sid := 0; cpm_providerName := "slack";
     cpm_chatProvider := SlackChatProvider "xoxp-1";
     cpm_channelLabels := [ {| label_text := "general"; label_provider := "slack" |};
                            {| label_text := "alice"; label_provider := "slack" |} ];
     cpm_teams := [ {| team_id := "T1"; team_name := "acme" |} ] |}.

Definition vslsSession : ChatProviderManager :=
  {| cpm_sid := 1; cpm_providerName := "vsls"; cpm_chatProvider := VslsChatProvider;
     cpm_channelLabels := [ {| label_text := "session"; label_provider := "vsls" |} ];
     cpm_teams := [] |}.

Definition discordSession : ChatProviderManager :=
  {| cpm_sid := 2; cpm_providerName := "discord";
     cpm_chatProvider := DiscordChatProvider "d-1";
     cpm_channelLabels := [ {| label_text := "lobby"; label_provider := "discord" |} ];
     cpm_teams := [] |}.

(** The same user once the three sessions are registered, Slack first. *)
Definition running : World :=
  {| mgr := {| isTokenInitialized := true; vslsContactProvider := None;
               chatProviders := [ ("slack", slackSession); ("vsls", vslsSession);
                                  ("discord", discordSession) ];
               store := signedInStore |};
     hasVslsExtension := true;
     tokens := {[ "slack" := "xoxp-1"; "discord" := "d-1"; "vsls" := "vsls-token" ]};
     nextSid := 3; registerInitializes := true;
     initialChannelLabels := λ _ _, []; initialTeams := λ _ _, []; trace := [] |}.

(** Only the Live Share session is registered. *)
Definition vslsOnly : World :=
  {| mgr := {| isTokenInitialized := true; vslsContactProvider := None;
               chatProviders := [ ("vsls", vslsSession) ]; store := emptyStore |};
     hasVslsExtension := true; tokens := {[ "vsls" := "vsls-token" ]};
     nextSid := 2; registerInitializes := true;
     initialChannelLabels := λ _ _, []; initialTeams := λ _ _, []; trace := [] |}.

(** The three sessions are still registered, but the secret store holds no
    credential for Slack or Discord any more, as after a first [signout]. *)
Definition signedOutOnce : World :=
  {| mgr := mgr running; hasVslsExtension := true;
     tokens := {[ "vsls" := "vsls-token" ]};
     nextSid := 3; registerInitializes := true;
     initialChannelLabels := λ _ _, []; initialTeams := λ _ _, []; trace := [] |}.

(** * Fan-out over the sessions

    [initializeProviders], [initializeUsersStateForAll],
    [initializeChannelsStateForAll] and [updateUserPrefsForAll] are [async]
    and walk [Array.from(this.chatProviders.entries())], awaiting one method
    of each session. [subscribePresenceForAll] walks the same entries, but it
    is not [async] and does not await what [subscribeForPresence()] returns.
    The session methods are outside the sources: whether a call fails, how,
    and with which error, is given by [fails]. *)

Inductive FanOutCall :=
| cp_initializeProvider
| cp_initializeUsersState
| cp_initializeChannelsState
| cp_subscribeForPresence
| cp_updateUserPrefs.

(** How the call of a session method fails: it throws before it returns, or
    it returns a promise that is rejected. *)
Inductive Failure :=
| Thrown (e : string)
| Rejected (e : string).

(** The error a failing call raises in the loop that makes it. An awaited
    call raises the error of a throw and of a rejection alike; a call that is
    not awaited raises only what it throws, the rejection of its promise
    reaches nobody. *)
Definition raised (awaited : bool) (failure : option Failure) : option string :=
  match failure with
  | Some (Thrown e) => Some e
  | Some (Rejected e) => if awaited then Some e else None
  | None => None
  end.

(** The loop of the five methods: the calls made, in the order made, and how
    the loop ended. Nothing catches an error a call raises. *)
Fixpoint forEntries (awaited : bool) (call : FanOutCall)
    (fails : ChatProviderManager → FanOutCall → option Failure)
    (entries : list (string * ChatProviderManager))
    : list (ChatProviderManager * FanOutCall) * Completion unit :=
  match entries with
  | [] => ([], Normal tt)
  | entry :: rest =>
      let chatProvider := entry.2 in
      match raised awaited (fails chatProvider call) with
      | Some e => ([(chatProvider, call)], Throw e)
      | None =>
          let '(calls, r) := forEntries awaited call fails rest in
          ((chatProvider, call) :: calls, r)
      end
  end.

Definition initializeProviders (w : World) fails :=
  forEntries true cp_initializeProvider fails (JSMap.entries (chatProviders (mgr w))).

Definition initializeUsersStateForAll (w : World) fails :=
  forEntries true cp_initializeUsersState fails (JSMap.entries (chatProviders (mgr w))).

Definition initializeChannelsStateForAll (w : World) fails :=
  forEntries true cp_initializeChannelsState fails
    (JSMap.entries (chatProviders (mgr w))).

Definition subscribePresenceForAll (w : World) fails :=
  forEntries false cp_subscribeForPresence fails
    (JSMap.entries (chatProviders (mgr w))).

Definition updateUserPrefsForAll (w : World) fails :=
  forEntries true cp_updateUserPrefs fails (JSMap.entries (chatProviders (mgr w))).

(** The method behind each kind of call. *)
Definition fanOut (call : FanOutCall) (w : World) fails :=
  match call with
  | cp_initializeProvider => initializeProviders w fails
  | cp_initializeUsersState => initializeUsersStateForAll w fails
  | cp_initializeChannelsState => initializeChannelsStateForAll w fails
  | cp_subscribeForPresence => subscribePresenceForAll w fails
  | cp_updateUserPrefs => updateUserPrefsForAll w fails
  end.

(** Whether the method behind a call awaits it. *)
Definition awaits (call : FanOutCall) : bool :=
  match call with
  | cp_subscribeForPresence => false
  | _ => true
  end.

(** * Vocabulary of the further properties *)

(** The session method a dispatch method forwards to, with its arguments. *)
Definition callOf (op : DispatchOp) : SessionCall :=
  match op with
  | op_isAuthenticated => cp_isAuthenticated
  | op_createIMChannel user => cp_createIMChannel user
  | op_getUserPresence userId => cp_getUserPresence userId
  | op_getCurrentUserPresence => cp_getCurrentUserPresence
  | op_loadChannelHistory channelId => cp_loadChannelHistory channelId
  | op_updateReadMarker => cp_updateReadMarker
  | op_sendMessage text channelId parentTimestamp =>
      cp_sendMessage text channelId parentTimestamp
  | op_updateSelfPresence presence durationInMinutes =>
      cp_updateSelfPresence presence durationInMinutes
  | op_addReaction channelId msgTimestamp userId reactionName =>
      cp_addReaction channelId msgTimestamp userId reactionName
  | op_removeReaction channelId msgTimestamp userId reactionName =>
      cp_removeReaction channelId msgTimestamp userId reactionName
  | op_fetchThreadReplies parentTimestamp => cp_fetchThreadReplies parentTimestamp
  | op_updateMessageReply parentTimestamp channelId reply =>
      cp_updateMessageReply parentTimestamp channelId reply
  | op_updateMessages channelId messages => cp_updateMessages channelId messages
  | op_updateChannelMarked channelId readTimestamp unreadCount =>
      cp_updateChannelMarked channelId readTimestamp unreadCount
  | op_updatePresenceForUser userId presence => cp_updatePresenceForUser userId presence
  | op_getChannel channelId => cp_getChannel channelId
  | op_fetchUsers => cp_fetchUsers
  | op_fetchChannels => cp_fetchChannels
  | op_getMessages => cp_messages
  | op_getUnreadCount channel => cp_getUnreadCount channel
  end.


(** The session [initializeToken] builds for [provider] in the world [w]. *)
Definition newSession (provider : string) (chatProvider : IChatProvider) (w : World)
    : ChatProviderManager :=
  {| cpm_sid := nextSid w; cpm_providerName := provider;
     cpm_chatProvider := chatProvider;
     cpm_channelLabels := initialChannelLabels w (store (mgr w)) provider;
     cpm_teams := initialTeams w (store (mgr w)) provider |}.

(** The world after one pass of the loop has built and registered that
    session. *)
Definition registered (provider : string) (chatProvider : IChatProvider) (w : World)
    : World :=
  with_mgr (set_isTokenInitialized true)
    (with_mgr (upd_chatProviders (JSMap.set provider (newSession provider chatProvider w)))
       (with_trace (λ t, t ++ [NewChatProviderManager provider (nextSid w)])
          (bump_sid w))).

(** An entry that was not in the registry of [w] and was built from the stored
    token of its provider, with an identity handed out between [w] and [w']. *)
Definition freshEntry (w w' : World) (e : string * ChatProviderManager) : Prop :=
  JSMap.get e.1 (registry w) = None
  ∧ e.1 ≠ ""
  ∧ cpm_providerName e.2 = e.1
  ∧ nextSid w ≤ cpm_sid e.2 < nextSid w'
  ∧ ∃ token, tokens w !! e.1 = Some token ∧ token ≠ ""
      ∧ instantiateChatProvider token e.1 = Normal (cpm_chatProvider e.2).

(** The event recording that the session of an entry was built. *)
Definition builtEvent (e : string * ChatProviderManager) : Event :=
  NewChatProviderManager e.1 (cpm_sid e.2).

(** Session identities are below the next one to hand out, and no two
    registered sessions share one. *)
Definition sidsOk (w : World) : Prop :=
  Forall (λ e : string * ChatProviderManager, cpm_sid e.2 < nextSid w) (registry w)
  ∧ NoDup (map (λ e : string * ChatProviderManager, cpm_sid e.2) (registry w)).

(** The [providerTeams] object [initializeViewsManager] fills while walking
    the keys [ks] of the registry [m]. *)
Definition collectTeams (m : list (string * ChatProviderManager)) (ks : list string)
    (providerTeams : list (string * list Team)) : list (string * list Team) :=
  foldl
    (λ providerTeams provider,
       match JSMap.get provider m with
       | Some cp => JSMap.set provider (cpm_teams cp) providerTeams
       | None => providerTeams
       end) providerTeams ks.


(** The teams [initializeViewsManager] hands to the views. *)
Definition teamsOf (m : list (string * ChatProviderManager)) : list (string * list Team) :=
  map (λ e, (e.1, cpm_teams e.2)) m.

(** * Properties *)

(** ** Arrays: [indexOf] and positional [filter] *)

Lemma indexOfFrom_ge item l i n :
  indexOfFrom item l i = Some n → i ≤ n.
Proof.
  revert i. induction l as [|x l IH]; intros i; simpl; [done|].
  case_decide.
  - intros [= ->]. lia.
  - intros H'%IH. lia.
Qed.

Lemma indexOfFrom_first pre item suf i :
  item ∉ pre → indexOfFrom item (pre ++ item :: suf) i = Some (i + length pre).
Proof.
  revert i. induction pre as [|x pre IH]; intros i Hni; simpl.
  - rewrite decide_True by done. f_equal. lia.
  - apply not_elem_of_cons in Hni as [Hne Hni].
    rewrite decide_False by done. rewrite IH by done. f_equal. lia.
Qed.

Lemma indexOfFrom_earlier pre item l i n :
  item ∈ pre → indexOfFrom item (pre ++ l) i = Some n → n < i + length pre.
Proof.
  revert i. induction pre as [|x pre IH]; intros i Hin; simpl.
  - by apply elem_of_nil in Hin.
  - case_decide.
    + intros [= ->]. lia.
    + apply elem_of_cons in Hin as [-> | Hin]; [done|].
      intros H'. apply IH in H'; [lia|done].
Qed.

(** The callback of [getEnabledProviders] keeps the element at position
    [length pre] exactly when it did not occur earlier. *)
Lemma first_occurrence pre item suf :
  bool_decide (indexOf (pre ++ item :: suf) item = Some (length pre)) = true
  ↔ item ∉ pre.
Proof.
  rewrite bool_decide_eq_true. unfold indexOf. split.
  - intros H Hin. apply (indexOfFrom_earlier _ _ _ _ _ Hin) in H. lia.
  - intros Hni. by rewrite indexOfFrom_first.
Qed.

Section unique.
Variable whole : list string.

Lemma uniq_elem l pre p :
  whole = pre ++ l →
  p ∈ filterFrom (keepFirst whole) l (length pre) ↔ p ∈ l ∧ p ∉ pre.
Proof using Type.
  revert pre. induction l as [|x l IH]; intros pre Hw; simpl.
  - split; [by intros ?%elem_of_nil|by intros [?%elem_of_nil _]].
  - assert (Hw' : whole = (pre ++ [x]) ++ l) by by rewrite <- app_assoc.
    specialize (IH (pre ++ [x]) Hw').
    rewrite length_app, Nat.add_1_r in IH.
    destruct (keepFirst whole x (length pre)) eqn:Hk;
      unfold keepFirst in Hk; rewrite Hw in Hk.
    + apply first_occurrence in Hk.
      rewrite !elem_of_cons, IH, elem_of_app, list_elem_of_singleton.
      destruct (decide (p = x)) as [-> | Hne]; tauto.
    + apply not_true_iff_false in Hk. rewrite first_occurrence in Hk.
      apply dec_stable in Hk.
      rewrite IH, elem_of_cons, elem_of_app, list_elem_of_singleton.
      destruct (decide (p = x)) as [-> | Hne]; tauto.
Qed.

Lemma uniq_NoDup l pre :
  whole = pre ++ l → NoDup (filterFrom (keepFirst whole) l (length pre)).
Proof using Type.
  revert pre. induction l as [|x l IH]; intros pre Hw; simpl.
  - constructor.
  - assert (Hw' : whole = (pre ++ [x]) ++ l) by by rewrite <- app_assoc.
    pose proof (IH (pre ++ [x]) Hw') as Hnd.
    pose proof (λ p, uniq_elem l (pre ++ [x]) p Hw') as Hel.
    rewrite length_app, Nat.add_1_r in Hnd.
    setoid_rewrite length_app in Hel. setoid_rewrite Nat.add_1_r in Hel.
    destruct (keepFirst whole x (length pre)); [|done].
    constructor; [|done].
    rewrite Hel, elem_of_app, list_elem_of_singleton. tauto.
Qed.
End unique.

Lemma NoDup_count_one (l : list string) (p : string) :
  NoDup l → p ∈ l → length (List.filter (λ q, bool_decide (q = p)) l) = 1.
Proof.
  induction 1 as [|x l Hni Hnd IH]; [by intros ?%elem_of_nil|].
  intros Hin. simpl. case_bool_decide as Hx.
  - subst x. simpl. f_equal.
    clear IH Hin Hnd. induction l as [|y l IHl]; [done|].
    apply not_elem_of_cons in Hni as [Hne Hni].
    simpl. rewrite bool_decide_eq_false_2 by done. auto.
  - apply elem_of_cons in Hin as [-> | Hin]; [done|]. auto.
Qed.

Lemma getEnabledProviders_elem w p :
  p ∈ getEnabledProviders w ↔ p ∈ discovered w.
Proof.
  unfold getEnabledProviders, discovered, filterPos.
  set (providers := if hasVslsExtension w then _ ++ [vsls] else _).
  assert (Hp : providers =
    map cu_provider (IStore.getCurrentUserForAll (store (mgr w)))
    ++ (if hasVslsExtension w then [vsls] else [])).
  { subst providers. destruct (hasVslsExtension w); [done|by rewrite app_nil_r]. }
  rewrite <- Hp.
  rewrite (uniq_elem providers providers [] p eq_refl).
  split; [tauto|]. intros ?. split; [done|]. apply not_elem_of_nil.
Qed.

Lemma getEnabledProviders_NoDup w : NoDup (getEnabledProviders w).
Proof.
  unfold getEnabledProviders, filterPos.
  set (providers := if hasVslsExtension w then _ ++ [vsls] else _).
  apply (uniq_NoDup providers providers [] eq_refl).
Qed.

(** ** The registry as a map *)

Section JSMap_facts.
Context {V : Type}.
Implicit Types (m : list (string * V)) (k : string) (v : V).

Lemma get_set_eq m k v : JSMap.get k (JSMap.set k v m) = Some v.
Proof.
  induction m as [|[k' v'] m IH]; simpl.
  - by rewrite decide_True.
  - case_decide; simpl; [by rewrite decide_True|by rewrite decide_False].
Qed.

Lemma get_set_ne m k k' v : k ≠ k' → JSMap.get k' (JSMap.set k v m) = JSMap.get k' m.
Proof.
  intros Hne. induction m as [|[k0 v0] m IH]; simpl.
  - by rewrite decide_False.
  - destruct (decide (k0 = k)) as [-> | Hk]; simpl.
    + by rewrite !decide_False.
    + by rewrite IH.
Qed.

Lemma get_delete_eq m k : JSMap.get k (JSMap.delete k m) = None.
Proof.
  induction m as [|[k' v'] m IH]; simpl; [done|].
  case_decide; simpl; [done|by rewrite decide_False].
Qed.

Lemma get_delete_ne m k k' : k ≠ k' → JSMap.get k' (JSMap.delete k m) = JSMap.get k' m.
Proof.
  intros Hne. induction m as [|[k0 v0] m IH]; simpl; [done|].
  destruct (decide (k0 = k)) as [-> | Hk]; simpl.
  - by rewrite decide_False.
  - by rewrite IH.
Qed.

Lemma delete_absent m k : JSMap.get k m = None → JSMap.delete k m = m.
Proof.
  induction m as [|[k' v'] m IH]; simpl; [done|].
  case_decide; [done|]. intros ?. f_equal. auto.
Qed.

Lemma get_Some_elem m k v : JSMap.get k m = Some v → (k, v) ∈ m.
Proof.
  induction m as [|[k' v'] m IH]; simpl; [done|].
  case_decide as Hk.
  - intros [= ->]. subst. left.
  - intros ?. right. auto.
Qed.

Lemma get_None_keys m k : JSMap.get k m = None ↔ k ∉ JSMap.keys m.
Proof.
  unfold JSMap.keys. induction m as [|[k' v'] m IH]; simpl.
  - split; [intros _; apply not_elem_of_nil|done].
  - rewrite not_elem_of_cons. case_decide as Hk.
    + split; [done|]. intros [? _]. by subst.
    + rewrite IH. split; [by intros ?; split|by intros [_ ?]].
Qed.

Lemma get_is_Some_keys m k : is_Some (JSMap.get k m) ↔ k ∈ JSMap.keys m.
Proof.
  rewrite <- not_eq_None_Some, get_None_keys.
  split; [apply dec_stable|auto].
Qed.

Lemma elem_get_wf m k v : JSMap.wf m → (k, v) ∈ m → JSMap.get k m = Some v.
Proof.
  unfold JSMap.wf, JSMap.keys. induction m as [|[k' v'] m IH]; simpl.
  - by intros _ ?%elem_of_nil.
  - intros [Hni Hnd]%NoDup_cons [[= -> ->] | Hin]%elem_of_cons.
    + by rewrite decide_True.
    + rewrite decide_False; [auto|].
      intros ->. apply Hni. apply list_elem_of_fmap. by exists (k, v).
Qed.

Lemma keys_set_in m k v : k ∈ JSMap.keys m → JSMap.keys (JSMap.set k v m) = JSMap.keys m.
Proof.
  unfold JSMap.keys. induction m as [|[k' v'] m IH]; simpl.
  - by intros ?%elem_of_nil.
  - intros Hin. case_decide as Hk; simpl; [by subst|].
    f_equal. apply IH. apply elem_of_cons in Hin as [-> | ?]; done.
Qed.

Lemma keys_set_notin m k v :
  k ∉ JSMap.keys m → JSMap.keys (JSMap.set k v m) = JSMap.keys m ++ [k].
Proof.
  unfold JSMap.keys. induction m as [|[k' v'] m IH]; simpl; [done|].
  intros [Hne Hni]%not_elem_of_cons.
  rewrite decide_False by done. simpl. f_equal. auto.
Qed.

(** A new key goes to the end: registration order is insertion order. *)
Lemma set_notin m k v : k ∉ JSMap.keys m → JSMap.set k v m = m ++ [(k, v)].
Proof.
  unfold JSMap.keys. induction m as [|[k' v'] m IH]; simpl; [done|].
  intros [Hne Hni]%not_elem_of_cons.
  rewrite decide_False by done. f_equal. auto.
Qed.

Lemma wf_set m k v : JSMap.wf m → JSMap.wf (JSMap.set k v m).
Proof.
  unfold JSMap.wf. intros Hnd.
  destruct (decide (k ∈ JSMap.keys m)) as [Hin | Hni].
  - by rewrite keys_set_in.
  - rewrite keys_set_notin by done.
    apply NoDup_app. split_and!; [done| |apply NoDup_singleton].
    intros x Hx ->%list_elem_of_singleton. done.
Qed.

Lemma delete_filter m k :
  JSMap.delete k m = List.filter (λ e, bool_decide (e.1 ≠ k)) m.
Proof.
  induction m as [|[k' v'] m IH]; simpl; [done|].
  case_decide as Hk.
  - by rewrite bool_decide_eq_false_2 by (simpl; auto).
  - rewrite bool_decide_eq_true_2 by done. by f_equal.
Qed.

Lemma elem_delete m k e : e ∈ JSMap.delete k m ↔ e ∈ m ∧ e.1 ≠ k.
Proof.
  induction m as [|[k' v'] m IH]; simpl.
  - split; [by intros ?%elem_of_nil|by intros [?%elem_of_nil _]].
  - case_decide as Hk; rewrite ?elem_of_cons, IH.
    + split; [tauto|]. intros [[-> | ?] ?]; [done|tauto].
    + split; [|tauto]. intros [-> | [? ?]]; [by split; [left|]|tauto].
Qed.

Lemma wf_delete m k : JSMap.wf m → JSMap.wf (JSMap.delete k m).
Proof.
  unfold JSMap.wf, JSMap.keys. induction m as [|[k' v'] m IH]; simpl; [done|].
  intros [Hni Hnd]%NoDup_cons. case_decide as Hk; simpl; [auto|].
  apply NoDup_cons. split; [|auto].
  intros [[k0 v0] [Hk0 Hin]]%list_elem_of_fmap. simpl in Hk0. subst k0.
  apply elem_delete in Hin as [Hin _].
  apply Hni. apply list_elem_of_fmap. by exists (k', v0).
Qed.
End JSMap_facts.

(** ** Running programs *)

Lemma bind_normal {A B} (c : M A) (k : A → M B) w a w' :
  c w = (Normal a, w') → (x ← c; k x) w = k a w'.
Proof. intros H. unfold mbind, M_bind, bind. by rewrite H. Qed.

(** A loop whose body only reads the world leaves it as it was. *)
Lemma forOf_pure {A S} (l : list A) (body : S → A → M S) :
  (∀ s x w, ∃ s', body s x w = (Normal s', w)) →
  ∀ s w, ∃ s', forOf l body s w = (Normal s', w).
Proof.
  intros Hbody. induction l as [|x l IH]; intros s w; simpl; [by eexists|].
  destruct (Hbody s x w) as [s1 Hs1].
  erewrite bind_normal by exact Hs1. apply IH.
Qed.

(** ** [initializeToken] *)

Lemma grows_refl w : grows w w.
Proof. by split. Qed.

Lemma grows_trans w1 w2 w3 : grows w1 w2 → grows w2 w3 → grows w1 w3.
Proof.
  intros [] []. split; intros; try congruence; auto.
Qed.

Lemma sessionsCreated_emit p e w :
  sessionsCreated p (with_trace (λ t, t ++ [e]) w)
  = sessionsCreated p w + (if isNewSession p e then 1 else 0).
Proof.
  unfold sessionsCreated. simpl. rewrite List.filter_app, length_app. simpl.
  by destruct (isNewSession p e).
Qed.

Lemma grows_flag b w : grows w (with_mgr (set_isTokenInitialized b) w).
Proof. by split. Qed.

Lemma grows_emit e w :
  (∀ p, isNewSession p e = false) → grows w (with_trace (λ t, t ++ [e]) w).
Proof.
  intros He. split; try done.
  intros p. unfold potential. rewrite sessionsCreated_emit, He. simpl.
  unfold registry. simpl. lia.
Qed.

(** Building and registering a session for a provider that has none. *)
Lemma grows_register provider chatProvider w :
  JSMap.get provider (registry w) = None →
  let r := newChatProviderManager provider chatProvider w in
  ∃ cp, r.1 = Normal cp ∧
    grows w (with_mgr (upd_chatProviders (JSMap.set provider cp)) r.2).
Proof.
  intros Hnone. run. eexists. split; [done|].
  split; simpl; try done.
  - intros p. unfold potential, registry, sessionsCreated in *. simpl.
    rewrite List.filter_app, length_app. simpl.
    destruct (decide (provider = p)) as [-> | Hne].
    + rewrite get_set_eq, Hnone, bool_decide_eq_true_2 by done. simpl. lia.
    + rewrite get_set_ne, bool_decide_eq_false_2 by done. simpl. lia.
  - intros p cp Hp. unfold registry in *. simpl.
    rewrite get_set_ne; [done|]. intros ->. congruence.
  - unfold registry. simpl. apply wf_set.
Qed.

Lemma initializeViewsManager_grows w : grows w (exec initializeViewsManager w).
Proof.
  unfold initializeViewsManager, exec.
  erewrite bind_normal by (unfold gets; reflexivity).
  match goal with |- context [forOf ?l ?body ?s0] =>
    assert (Hpure : ∀ s x w, ∃ s', body s x w = (Normal s', w));
    [|destruct (forOf_pure l body Hpure s0 w) as [acc' Hacc]]
  end.
  { intros s x w0. run. destruct (JSMap.get x (chatProviders (mgr w0))); by eexists. }
  erewrite bind_normal by exact Hacc.
  run. by apply grows_emit.
Qed.

(** *** The loop, pass by pass *)

Lemma initializeToken_unfold newProvider w :
  initializeToken newProvider w
  = match forOf (candidates newProvider w) tokenStep tt w with
    | (Normal _, w') => initializeViewsManager w'
    | (Throw e, w') => (Throw e, w')
    end.
Proof. reflexivity. Qed.

Lemma sameSessions_refl w : sameSessions w w.
Proof. by split. Qed.

Lemma sameSessions_trans w1 w2 w3 :
  sameSessions w1 w2 → sameSessions w2 w3 → sameSessions w1 w3.
Proof. intros [] []. split; congruence. Qed.

Lemma sameSessions_needs w w' x : sameSessions w w' → needs w' x = needs w x.
Proof. intros []. unfold needs. congruence. Qed.

Lemma grows_needs w w' x : grows w w' → needs w' x = needs w x.
Proof. intros []. unfold needs. congruence. Qed.

Lemma getEnabledProviders_ext w w' :
  store (mgr w') = store (mgr w) → hasVslsExtension w' = hasVslsExtension w →
  getEnabledProviders w' = getEnabledProviders w.
Proof. intros Hs Hv. unfold getEnabledProviders. by rewrite Hs, Hv. Qed.

(** A pass that ends normally leaves a wanted provider with a session; a pass
    that throws has changed nothing, and found a wanted provider without one. *)
Lemma tokenStep_result x w :
  match tokenStep tt x w with
  | (Normal _, w') =>
      grows w w' ∧ (needs w x = true → is_Some (JSMap.get x (registry w')))
  | (Throw e, w') =>
      w' = w ∧ needs w x = true ∧ JSMap.get x (registry w) = None
  end.
Proof.
  unfold tokenStep, needs, registry.
  destruct (truthy x); simpl; [|split; [apply grows_refl|done]].
  run.
  destruct (tokens w !! x) as [token|]; simpl; [|split; [apply grows_refl|done]].
  destruct (truthy token); simpl; [|split; [apply grows_refl|done]].
  destruct (JSMap.get x (chatProviders (mgr w))) eqn:Hget; simpl.
  { split; [apply grows_flag|]. rewrite Hget. by eexists. }
  destruct (instantiateChatProvider token x) as [chatProvider | msg]; simpl; [|done].
  destruct (grows_register x chatProvider w Hget) as (cp & Hcp & Hg).
  revert Hcp Hg. run. intros [= <-] Hg. split.
  - eapply grows_trans; [exact Hg|]. apply grows_flag.
  - intros _. unfold registry. simpl. rewrite get_set_eq. by eexists.
Qed.

(** When the wanted session is there, a pass touches the flag only. *)
Lemma tokenStep_replay x w :
  (needs w x = true → is_Some (JSMap.get x (registry w))) →
  ∃ w', tokenStep tt x w = (Normal tt, w') ∧ sameSessions w w'.
Proof.
  unfold tokenStep, needs, registry.
  destruct (truthy x); simpl; [|by exists w].
  run.
  destruct (tokens w !! x) as [token|]; simpl; [|by exists w].
  destruct (truthy token); simpl; [|by exists w].
  intros [cp ->]; [done|]. simpl. by eexists.
Qed.

(** A pass that threw throws again as long as the sessions are the same. *)
Lemma tokenStep_rethrow x w e w2 :
  tokenStep tt x w = (Throw e, w) → sameSessions w w2 →
  tokenStep tt x w2 = (Throw e, w2).
Proof.
  intros Hthrow [Hreg _ Htok _ _ _ _]. revert Hthrow.
  unfold tokenStep, registry in *.
  destruct (truthy x); simpl; [|done].
  run. rewrite Htok.
  destruct (tokens w !! x) as [token|]; simpl; [|done].
  destruct (truthy token); simpl; [|done].
  rewrite Hreg.
  destruct (JSMap.get x (chatProviders (mgr w))); simpl; [done|].
  destruct (instantiateChatProvider token x); simpl; [done|].
  by intros [= ->].
Qed.

Lemma forOf_tokenStep_replay l :
  ∀ w, (∀ x, x ∈ l → needs w x = true → is_Some (JSMap.get x (registry w))) →
  ∃ w', forOf l tokenStep tt w = (Normal tt, w') ∧ sameSessions w w'.
Proof.
  induction l as [|x l IH]; intros w Hall; simpl.
  - exists w. split; [done|apply sameSessions_refl].
  - destruct (tokenStep_replay x w) as (w1 & Hstep & Hsame).
    { apply Hall. left. }
    erewrite bind_normal by exact Hstep.
    destruct (IH w1) as (w' & Hrun & Hsame').
    { intros y Hy. rewrite (sameSessions_needs _ _ _ Hsame), (same_registry _ _ Hsame).
      apply Hall. by right. }
    exists w'. split; [done|]. by eapply sameSessions_trans.
Qed.

(** Running the loop once more, from the world the first run left (flag
    aside), ends the way the first run ended and changes no session. *)
Lemma forOf_tokenStep_again l :
  ∀ w r w1, forOf l tokenStep tt w = (r, w1) →
  grows w w1
  ∧ ∀ w1', sameSessions w1 w1' →
      ∃ w2, forOf l tokenStep tt w1' = (r, w2) ∧ sameSessions w1 w2.
Proof.
  induction l as [|x l IH]; intros w r w1; simpl.
  - intros [= <- <-]. split; [apply grows_refl|].
    intros w1' Hsame. by exists w1'.
  - unfold mbind, M_bind, bind.
    pose proof (tokenStep_result x w) as Hx.
    destruct (tokenStep tt x w) as [[[] | e] wx] eqn:Hstep.
    + destruct Hx as [Hgx Hsx]. intros Hrun.
      destruct (IH wx r w1 Hrun) as [Hg Hagain].
      split; [by eapply grows_trans|].
      intros w1' Hsame.
      destruct (tokenStep_replay x w1') as (wy & Hstep' & Hsame').
      { rewrite (sameSessions_needs _ _ _ Hsame), (grows_needs _ _ _ Hg),
          (grows_needs _ _ _ Hgx), (same_registry _ _ Hsame).
        intros [cp Hcp]%Hsx. exists cp. by apply (grows_keeps _ _ Hg). }
      rewrite Hstep'.
      destruct (Hagain wy) as (w2 & Hrun2 & Hsame2); [by eapply sameSessions_trans|].
      by exists w2.
    + destruct Hx as (-> & Hneeds & Hnone). intros [= <- <-].
      split; [apply grows_refl|].
      intros w1' Hsame. rewrite (tokenStep_rethrow x w e w1' Hstep Hsame).
      by exists w1'.
Qed.

Lemma initializeToken_grows newProvider w :
  grows w (exec (initializeToken newProvider) w).
Proof.
  unfold exec. rewrite initializeToken_unfold.
  destruct (forOf (candidates newProvider w) tokenStep tt w) as [r wl] eqn:Hrun.
  destruct (forOf_tokenStep_again _ _ _ _ Hrun) as [Hg _].
  destruct r as [[] | e]; simpl; [|exact Hg].
  eapply grows_trans; [exact Hg|]. apply initializeViewsManager_grows.
Qed.

(** After a loop that ended normally every wanted provider has a session. *)
Lemma forOf_tokenStep_normal l :
  ∀ w wl, forOf l tokenStep tt w = (Normal tt, wl) →
  ∀ x, x ∈ l → needs wl x = true → is_Some (JSMap.get x (registry wl)).
Proof.
  induction l as [|y l IH]; intros w wl Hrun x Hx; [by apply elem_of_nil in Hx|].
  simpl in Hrun. unfold mbind, M_bind, bind in Hrun.
  pose proof (tokenStep_result y w) as Hy.
  destruct (tokenStep tt y w) as [[[] | e] wy] eqn:Hstep; [|done].
  destruct Hy as [Hgy Hsy].
  destruct (forOf_tokenStep_again _ _ _ _ Hrun) as [Hgl _].
  apply elem_of_cons in Hx as [-> | Hx].
  - rewrite (grows_needs _ _ _ Hgl), (grows_needs _ _ _ Hgy).
    intros [cp Hcp]%Hsy. exists cp. by apply (grows_keeps _ _ Hgl).
  - by apply (IH wy).
Qed.

Lemma initializeViewsManager_run w :
  ∃ w', initializeViewsManager w = (Normal tt, w')
    ∧ registry w' = registry w
    ∧ (∀ p, sessionsCreated p w' = sessionsCreated p w)
    ∧ sameSessions w (with_trace (λ _, trace w) w').
Proof.
  unfold initializeViewsManager.
  erewrite bind_normal by (unfold gets; reflexivity).
  match goal with |- context [forOf ?l ?body ?s0] =>
    assert (Hpure : ∀ s x w, ∃ s', body s x w = (Normal s', w));
    [|destruct (forOf_pure l body Hpure s0 w) as [acc' Hacc]]
  end.
  { intros s x w0. run. destruct (JSMap.get x (chatProviders (mgr w0))); by eexists. }
  erewrite bind_normal by exact Hacc.
  eexists. split; [reflexivity|]. split_and!; [done| |by split].
  intros p. rewrite sessionsCreated_emit. simpl. lia.
Qed.

(** Calling [initializeToken] again with the same argument builds no session,
    leaves the registry as the first call left it, and ends as the first call
    ended. *)
Lemma initializeToken_again newProvider w :
  let w1 := exec (initializeToken newProvider) w in
  let w2 := exec (initializeToken newProvider) w1 in
  registry w2 = registry w1
  ∧ (∀ p, sessionsCreated p w2 = sessionsCreated p w1)
  ∧ outcome (initializeToken newProvider) w1 = outcome (initializeToken newProvider) w.
Proof.
  intros w1 w2. subst w1 w2. unfold exec, outcome.
  rewrite (initializeToken_unfold newProvider w).
  destruct (forOf (candidates newProvider w) tokenStep tt w) as [r wl] eqn:Hrun.
  destruct (forOf_tokenStep_again _ _ _ _ Hrun) as [Hg Hagain].
  assert (Hcand : ∀ w', store (mgr w') = store (mgr w) →
            hasVslsExtension w' = hasVslsExtension w →
            candidates newProvider w' = candidates newProvider w).
  { intros w' Hs Hv. unfold candidates. by rewrite (getEnabledProviders_ext _ _ Hs Hv). }
  destruct r as [[] | e]; simpl.
  - destruct (initializeViewsManager_run wl) as (wv & Hv & Hreg & Hcr & Hsame).
    rewrite Hv. simpl. rewrite (initializeToken_unfold newProvider wv).
    rewrite Hcand;
      [|etrans; [exact (same_store _ _ Hsame)|exact (grows_store _ _ Hg)]
       |etrans; [exact (same_hasVsls _ _ Hsame)|exact (grows_hasVsls _ _ Hg)]].
    assert (Hwv : sameSessions wl (with_trace (λ _, trace wl) wv)) by done.
    assert (Hrun2 : ∃ w2, forOf (candidates newProvider w) tokenStep tt wv = (Normal tt, w2)
              ∧ registry w2 = registry wv
              ∧ ∀ p, sessionsCreated p w2 = sessionsCreated p wv).
    { destruct (forOf_tokenStep_replay (candidates newProvider w) wv)
        as (w2 & Hr2 & Hs2).
      - intros x Hx. rewrite Hreg. unfold needs.
        rewrite (same_tokens _ _ Hsame : tokens wv = tokens wl).
        by apply (forOf_tokenStep_normal _ _ _ Hrun).
      - exists w2. split; [done|]. split; [apply (same_registry _ _ Hs2)|].
        intros p. unfold sessionsCreated. by rewrite (same_trace _ _ Hs2). }
    destruct Hrun2 as (w2 & -> & Hreg2 & Hcr2).
    destruct (initializeViewsManager_run w2) as (wv2 & -> & Hreg3 & Hcr3 & _).
    simpl. split_and!; [congruence| |done].
    intros p. by rewrite Hcr3, Hcr2.
  - rewrite (initializeToken_unfold newProvider wl).
    rewrite Hcand; [|apply (grows_store _ _ Hg)|apply (grows_hasVsls _ _ Hg)].
    destruct (Hagain wl (sameSessions_refl wl)) as (w2 & -> & Hs2).
    simpl. split_and!; [apply (same_registry _ _ Hs2)| |done].
    intros p. unfold sessionsCreated. by rewrite (same_trace _ _ Hs2).
Qed.

(** ** [signout] *)

Lemma clearTokens_lookup ps t q :
  clearTokens ps t !! q = if decide (q ∈ ps) then None else t !! q.
Proof.
  unfold clearTokens. revert t. induction ps as [|p ps IH]; intros t; cbn [foldl].
  - destruct (decide (q ∈ [])) as [Hin%elem_of_nil|]; done.
  - rewrite IH.
    destruct (decide (q ∈ ps)) as [Hin | Hni], (decide (q ∈ p :: ps)) as [Hin' | Hni'];
      try done.
    + exfalso. apply Hni'. by right.
    + apply elem_of_cons in Hin' as [-> | ?]; [|done]. apply lookup_delete_eq.
    + apply lookup_delete_ne. intros ->. apply Hni'. left.
Qed.

Lemma resets_app t1 t2 : resets (t1 ++ t2) = resets t1 + resets t2.
Proof. unfold resets. by rewrite List.filter_app, length_app. Qed.

Lemma resets_ClearToken ps : resets (map ClearToken ps) = 0.
Proof. by induction ps. Qed.

Lemma signoutStep_vsls acc cp w : signoutStep acc ("vsls", cp) w = (Normal acc, w).
Proof. reflexivity. Qed.

Lemma signoutStep_other acc k cp w :
  k ≠ "vsls" →
  signoutStep acc (k, cp) w
  = (Normal true, with_trace (λ t, t ++ [ClearToken k]) (with_tokens (base.delete k) w)).
Proof.
  intros Hk. unfold signoutStep. simpl. by rewrite bool_decide_eq_true_2.
Qed.

Lemma signout_loop (entries : list (string * ChatProviderManager)) :
  ∀ (acc : bool) w0,
    let ps := List.filter (λ p, bool_decide (p ≠ "vsls")) (JSMap.keys entries) in
    ∃ w',
      forOf entries signoutStep acc w0
      = (Normal (acc || negb (bool_decide (ps = []))), w')
      ∧ mgr w' = mgr w0
      ∧ tokens w' = clearTokens ps (tokens w0)
      ∧ trace w' = trace w0 ++ map ClearToken ps
      ∧ hasVslsExtension w' = hasVslsExtension w0
      ∧ nextSid w' = nextSid w0
      ∧ registerInitializes w' = registerInitializes w0.
Proof.
  induction entries as [|[k cp] entries IH]; intros acc w0; simpl.
  - exists w0. rewrite orb_false_r, app_nil_r. by split_and!.
  - destruct (decide (k = "vsls")) as [-> | Hk].
    + simpl. erewrite bind_normal by apply signoutStep_vsls.
      destruct (IH acc w0) as (w' & Hrun & ?). exists w'. split; [exact Hrun|done].
    + rewrite !(bool_decide_eq_true_2 (k ≠ "vsls")) by done. simpl.
      erewrite bind_normal by (by apply signoutStep_other).
      match goal with |- context [forOf entries ?b true ?w1] =>
        destruct (IH true w1) as (w' & Hrun & Hm & Ht & Htr & Hv & Hn & Hr)
      end.
      exists w'. simpl in *. rewrite orb_true_r.
      rewrite <- app_assoc in Htr. by split_and!.
Qed.

Lemma signout_spec w :
  ∃ w',
    signout w = (Normal tt, w')
    ∧ mgr w' = mgr w
    ∧ tokens w' = clearTokens (signedOut w) (tokens w)
    ∧ trace w' = trace w ++ map ClearToken (signedOut w)
        ++ (if bool_decide (signedOut w = []) then []
            else [ExecuteCommand RESET_STORE None])
    ∧ hasVslsExtension w' = hasVslsExtension w
    ∧ nextSid w' = nextSid w
    ∧ registerInitializes w' = registerInitializes w.
Proof.
  unfold signout. erewrite bind_normal by (unfold gets; reflexivity).
  destruct (signout_loop (JSMap.entries (chatProviders (mgr w))) false w)
    as (w' & Hrun & Hm & Ht & Htr & Hv & Hn & Hr).
  erewrite bind_normal by exact Hrun. simpl.
  unfold signedOut, registry. unfold JSMap.entries in *.
  case_bool_decide as Hps; simpl.
  - exists w'. rewrite app_nil_r. by split_and!.
  - eexists. run. split; [done|]. simpl. rewrite Htr, <- app_assoc. by split_and!.
Qed.

(** ** [clearAll] *)

(** Clearing key after key: what is observed at [p] afterwards is the cleared
    value if [p] was among the keys, and what it was otherwise. *)
Lemma foldl_pointwise {T R} (f : string → T → T) (obs : T → string → R) (dflt : R) :
  (∀ k t p, obs (f k t) p = if decide (p = k) then dflt else obs t p) →
  ∀ ks t p,
    obs (foldl (λ t k, f k t) t ks) p = if decide (p ∈ ks) then dflt else obs t p.
Proof.
  intros Hf ks. induction ks as [|k ks IH]; intros t p; cbn [foldl].
  - destruct (decide (p ∈ [])) as [Hin%elem_of_nil|]; done.
  - rewrite IH, Hf.
    destruct (decide (p ∈ ks)) as [Hin | Hni], (decide (p ∈ k :: ks)) as [Hin' | Hni'];
      try done.
    + exfalso. apply Hni'. by right.
    + apply elem_of_cons in Hin' as [-> | ?]; [|done]. by rewrite decide_True.
    + rewrite decide_False; [done|]. intros ->. apply Hni'. left.
Qed.

Lemma get_deleteAll ks m p :
  JSMap.get p (deleteAll ks m) = if decide (p ∈ ks) then None else JSMap.get p m.
Proof.
  apply (foldl_pointwise (λ k m, JSMap.delete k m) (λ m p, JSMap.get p m) None).
  intros k t q. case_decide as Hq.
  - subst. apply get_delete_eq.
  - by apply get_delete_ne.
Qed.

Lemma deleteAll_filter ks (m : list (string * ChatProviderManager)) :
  deleteAll ks m = List.filter (λ e, bool_decide (e.1 ∉ ks)) m.
Proof.
  unfold deleteAll. revert m. induction ks as [|k ks IH]; intros m; cbn [foldl].
  - induction m as [|e m IHm]; [done|]. simpl. f_equal. exact IHm.
  - rewrite IH, delete_filter. clear IH.
    induction m as [|e m IHm]; [done|]. simpl.
    case_bool_decide as Hk; simpl.
    + rewrite IHm. destruct (decide (e.1 ∈ ks)).
      * rewrite !bool_decide_eq_false_2; [done|..].
        -- intros Hn. apply Hn. by right.
        -- intros Hn. by apply Hn.
      * rewrite !bool_decide_eq_true_2; [done|by apply not_elem_of_cons|done].
    + rewrite IHm. subst k.
      rewrite bool_decide_eq_false_2; [done|]. intros Hni. apply Hni. left.
Qed.

(** Deleting every registered key other than vsls leaves the vsls entry. *)
Lemma deleteAll_registered (m : list (string * ChatProviderManager)) :
  deleteAll (List.filter (λ p, bool_decide (p ≠ "vsls")) (JSMap.keys m)) m
  = List.filter (λ e, bool_decide (e.1 = "vsls")) m.
Proof.
  rewrite deleteAll_filter. apply List.filter_ext_in. intros [k cp] Hin. simpl.
  destruct (decide (k = "vsls")) as [-> | Hne].
  - rewrite !bool_decide_eq_true_2; [done..|].
    rewrite list_elem_of_In, List.filter_In, bool_decide_eq_true. by intros [_ ?].
  - rewrite !bool_decide_eq_false_2; [done..|].
    intros Hni. apply Hni.
    rewrite list_elem_of_In, List.filter_In, bool_decide_eq_true. split; [|done].
    apply list_elem_of_In, list_elem_of_fmap. exists (k, cp).
    split; [done|by apply list_elem_of_In].
Qed.

Lemma getCurrentUser_clearProviderState k s p :
  IStore.getCurrentUser (IStore.clearProviderState k s) p
  = if decide (p = k) then None else IStore.getCurrentUser s p.
Proof.
  unfold IStore.getCurrentUser, IStore.clearProviderState. simpl.
  induction (st_currentUserInfo s) as [|u l IH]; simpl.
  - by case_decide.
  - destruct (decide (cu_provider u = k)) as [Hu | Hu].
    + rewrite (bool_decide_eq_false_2 (cu_provider u ≠ k)) by auto.
      rewrite IH. case_decide as Hp; [done|].
      rewrite bool_decide_eq_false_2; [done|congruence].
    + rewrite (bool_decide_eq_true_2 (cu_provider u ≠ k)) by done. simpl.
      case_bool_decide as Hup.
      * rewrite decide_False; [done|congruence].
      * done.
Qed.

Lemma clearStates_currentUser ks s p :
  IStore.getCurrentUser (clearStates ks s) p
  = if decide (p ∈ ks) then None else IStore.getCurrentUser s p.
Proof.
  apply (foldl_pointwise IStore.clearProviderState IStore.getCurrentUser None).
  apply getCurrentUser_clearProviderState.
Qed.

Lemma clearStates_users ks s p :
  IStore.getUsers (clearStates ks s) p
  = if decide (p ∈ ks) then ∅ else IStore.getUsers s p.
Proof.
  apply (foldl_pointwise IStore.clearProviderState IStore.getUsers ∅).
  intros k t q. unfold IStore.getUsers. simpl. case_decide as Hq.
  - subst. by rewrite lookup_insert_eq.
  - by rewrite lookup_insert_ne.
Qed.

Lemma clearStates_channels ks s p :
  IStore.getChannels (clearStates ks s) p
  = if decide (p ∈ ks) then [] else IStore.getChannels s p.
Proof.
  apply (foldl_pointwise IStore.clearProviderState IStore.getChannels []).
  intros k t q. unfold IStore.getChannels. simpl. case_decide as Hq.
  - subst. by rewrite lookup_insert_eq.
  - by rewrite lookup_insert_ne.
Qed.

Lemma clearStates_lastChannelId ks s p :
  IStore.getLastChannelId (clearStates ks s) p
  = if decide (p ∈ ks) then None else IStore.getLastChannelId s p.
Proof.
  apply (foldl_pointwise IStore.clearProviderState IStore.getLastChannelId None).
  intros k t q. unfold IStore.getLastChannelId. simpl. case_decide as Hq.
  - subst. by rewrite lookup_delete_eq.
  - by rewrite lookup_delete_ne.
Qed.

Lemma destroyed_complete ks m p cp :
  p ∈ ks → p ≠ "vsls" → JSMap.get p m = Some cp → cp ∈ destroyed ks m.
Proof.
  revert m. induction ks as [|k ks IH]; intros m Hin Hp Hget; [by apply elem_of_nil in Hin|].
  simpl. destruct (decide (k = p)) as [-> | Hne].
  - rewrite bool_decide_eq_true_2, Hget by done. left.
  - apply elem_of_cons in Hin as [-> | Hin]; [done|].
    case_bool_decide; [|by apply IH].
    destruct (JSMap.get k m) eqn:Hk; [|by apply IH].
    right. apply IH; [done..|]. by rewrite get_delete_ne.
Qed.

Lemma destroyed_sound ks m cp :
  cp ∈ destroyed ks m → ∃ p, p ∈ ks ∧ p ≠ "vsls" ∧ JSMap.get p m = Some cp.
Proof.
  revert m. induction ks as [|k ks IH]; intros m; simpl; [by intros ?%elem_of_nil|].
  assert (Hrec : ∀ m', (∀ p c, JSMap.get p m' = Some c → JSMap.get p m = Some c) →
    cp ∈ destroyed ks m' → ∃ p, p ∈ k :: ks ∧ p ≠ "vsls" ∧ JSMap.get p m = Some cp).
  { intros m' Hsub (p & ? & ? & ?)%IH. exists p. split_and!; [by right|done|auto]. }
  case_bool_decide as Hk; [|by apply Hrec].
  destruct (JSMap.get k m) eqn:Hget; [|by apply Hrec].
  intros [-> | Hin]%elem_of_cons.
  - exists k. split_and!; [left|done..].
  - revert Hin. apply Hrec. intros q d.
    destruct (decide (k = q)) as [-> | Hne]; [by rewrite get_delete_eq|].
    by rewrite get_delete_ne.
Qed.

(** With distinct keys these are the sessions registered under a key other
    than vsls, each once and in registration order. *)
Lemma destroyed_wf (m : list (string * ChatProviderManager)) :
  JSMap.wf m →
  destroyed (JSMap.keys m) m
  = (List.filter (λ e, bool_decide (e.1 ≠ "vsls")) m).*2.
Proof.
  assert (Hgen : ∀ (m front : list (string * ChatProviderManager)),
    JSMap.wf (front ++ m) → (∀ e, e ∈ front → e.1 = "vsls") →
    destroyed (JSMap.keys m) (front ++ m)
    = (List.filter (λ e, bool_decide (e.1 ≠ "vsls")) m).*2).
  { clear m. induction m as [|[k cp] m IH]; intros front Hwf Hfront; [done|].
    simpl. case_bool_decide as Hk.
    - assert (Hkf : k ∉ JSMap.keys front).
      { intros ([k' c'] & -> & Hin)%list_elem_of_fmap. apply Hk. by apply (Hfront _ Hin). }
      assert (Hget : JSMap.get k (front ++ (k, cp) :: m) = Some cp).
      { clear -Hkf. induction front as [|[k' c'] front IHf]; simpl.
        - by rewrite decide_True.
        - unfold JSMap.keys in Hkf. simpl in Hkf. apply not_elem_of_cons in Hkf as [? ?].
          rewrite decide_False by done. by apply IHf. }
      rewrite Hget. simpl. f_equal.
      assert (Hdel : JSMap.delete k (front ++ (k, cp) :: m) = front ++ m).
      { rewrite delete_filter, List.filter_app. simpl.
        rewrite bool_decide_eq_false_2 by auto.
        rewrite <- !delete_filter.
        assert (Hid : ∀ l : list (string * ChatProviderManager),
                  k ∉ JSMap.keys l → JSMap.delete k l = l).
        { induction l as [|[k' c'] l IHl]; [done|]. unfold JSMap.keys. simpl.
          intros [? ?]%not_elem_of_cons. rewrite decide_False by done. f_equal. auto. }
        rewrite !Hid; [done| |done].
        unfold JSMap.wf, JSMap.keys in Hwf. rewrite fmap_app in Hwf.
        apply NoDup_app in Hwf as (_ & _ & Hnd). simpl in Hnd.
        by apply NoDup_cons in Hnd as [? _]. }
      rewrite Hdel. apply IH; [|done].
      unfold JSMap.wf, JSMap.keys in *. rewrite fmap_app in *. simpl in Hwf.
      apply NoDup_app in Hwf as (Hf & Hdisj & Hnd).
      apply NoDup_app. split_and!; [done| |by apply NoDup_cons in Hnd as [_ ?]].
      intros x Hx Hxm. apply (Hdisj x Hx). by right.
    - subst k.
      replace (front ++ ("vsls", cp) :: m) with ((front ++ [("vsls", cp)]) ++ m)
        by by rewrite <- app_assoc.
      apply IH; [by rewrite <- app_assoc|].
      intros e [?| ->%list_elem_of_singleton]%elem_of_app; auto. }
  intros Hwf. apply (Hgen m []); [done|]. by intros e ?%elem_of_nil.
Qed.

Lemma clearAllStep_vsls w : clearAllStep tt "vsls" w = (Normal tt, w).
Proof. reflexivity. Qed.

Lemma clearAllStep_present k cp w :
  k ≠ "vsls" → JSMap.get k (registry w) = Some cp →
  clearAllStep tt k w
  = (Normal tt,
     with_mgr (upd_chatProviders (JSMap.delete k))
       (with_trace (λ t, t ++ [Destroy cp])
          (with_mgr (upd_store (IStore.clearProviderState k)) w))).
Proof.
  intros Hk Hget. unfold clearAllStep, registry in *.
  rewrite bool_decide_eq_true_2 by done. run. by rewrite Hget.
Qed.

Lemma clearAllStep_absent k w :
  k ≠ "vsls" → JSMap.get k (registry w) = None →
  clearAllStep tt k w
  = (Normal tt, with_mgr (upd_store (IStore.clearProviderState k)) w).
Proof.
  intros Hk Hget. unfold clearAllStep, registry in *.
  rewrite bool_decide_eq_true_2 by done. run. by rewrite Hget.
Qed.

Lemma clearAll_loop (ks : list string) :
  ∀ w0, ∃ w',
    forOf ks clearAllStep tt w0 = (Normal tt, w')
    ∧ registry w' = deleteAll (List.filter (λ p, bool_decide (p ≠ "vsls")) ks) (registry w0)
    ∧ store (mgr w') = clearStates (List.filter (λ p, bool_decide (p ≠ "vsls")) ks) (store (mgr w0))
    ∧ trace w' = trace w0 ++ map Destroy (destroyed ks (registry w0))
    ∧ isTokenInitialized (mgr w') = isTokenInitialized (mgr w0)
    ∧ vslsContactProvider (mgr w') = vslsContactProvider (mgr w0)
    ∧ tokens w' = tokens w0
    ∧ hasVslsExtension w' = hasVslsExtension w0
    ∧ nextSid w' = nextSid w0
    ∧ registerInitializes w' = registerInitializes w0.
Proof.
  induction ks as [|k ks IH]; intros w0.
  - exists w0. simpl. rewrite app_nil_r. by split_and!.
  - cbn [forOf destroyed List.filter].
    destruct (decide (k = "vsls")) as [-> | Hk].
    + simpl. erewrite bind_normal by apply clearAllStep_vsls. apply IH.
    + rewrite !(bool_decide_eq_true_2 (k ≠ "vsls")) by done.
      destruct (JSMap.get k (registry w0)) as [cp|] eqn:Hget.
      * erewrite bind_normal by (by apply clearAllStep_present).
        match goal with |- context [forOf ks ?b tt ?w1] =>
          destruct (IH w1) as (w' & Hrun & Hreg & Hst & Htr & ? & ? & ? & ? & ? & ?)
        end.
        exists w'. unfold registry in *. simpl in *.
        rewrite <- app_assoc in Htr. by split_and!.
      * erewrite bind_normal by (by apply clearAllStep_absent).
        match goal with |- context [forOf ks ?b tt ?w1] =>
          destruct (IH w1) as (w' & Hrun & Hreg & Hst & Htr & ? & ? & ? & ? & ? & ?)
        end.
        exists w'. unfold registry in *. simpl in *.
        split_and!; try done.
        by rewrite delete_absent.
Qed.

Lemma clearAll_spec w :
  ∃ w',
    clearAll w = (Normal tt, w')
    ∧ registry w' = deleteAll (signedOut w) (registry w)
    ∧ store (mgr w') = clearStates (signedOut w) (store (mgr w))
    ∧ trace w' = trace w ++ map Destroy (destroyed (JSMap.keys (registry w)) (registry w))
    ∧ isTokenInitialized (mgr w') = false
    ∧ vslsContactProvider (mgr w') = vslsContactProvider (mgr w)
    ∧ tokens w' = tokens w
    ∧ hasVslsExtension w' = hasVslsExtension w
    ∧ nextSid w' = nextSid w
    ∧ registerInitializes w' = registerInitializes w.
Proof.
  unfold clearAll. erewrite bind_normal by (unfold gets; reflexivity).
  destruct (clearAll_loop (JSMap.keys (chatProviders (mgr w))) w)
    as (w1 & Hrun & ? & ? & ? & ? & ? & ? & ? & ? & ?).
  erewrite bind_normal by exact Hrun.
  eexists. split; [reflexivity|]. unfold signedOut, registry in *. simpl.
  by split_and!.
Qed.

Lemma signedOut_elem w p :
  p ∈ signedOut w ↔ p ≠ "vsls" ∧ is_Some (JSMap.get p (registry w)).
Proof.
  unfold signedOut.
  rewrite list_elem_of_In, List.filter_In, bool_decide_eq_true, <- list_elem_of_In.
  rewrite get_is_Some_keys. tauto.
Qed.

(** ** [getChannelLabels] *)

Lemma fold_left_labels (keep : string → bool) (m : list (string * ChatProviderManager)) acc :
  fold_left
    (λ (channelLabels : list ChannelLabel) (entry : string * ChatProviderManager),
       if keep entry.1 then channelLabels ++ cpm_channelLabels entry.2 else channelLabels)
    m acc
  = acc ++ concat (map (λ e, cpm_channelLabels e.2) (List.filter (λ e, keep e.1) m)).
Proof.
  revert acc. induction m as [|e m IH]; intros acc; simpl.
  - by rewrite app_nil_r.
  - rewrite IH. destruct (keep e.1); simpl; [by rewrite app_assoc|done].
Qed.

Lemma getChannelLabels_filter w provider :
  getChannelLabels w provider
  = concat (map (λ e, cpm_channelLabels e.2)
      (List.filter
         (λ e, negb (truthy_opt provider) || bool_decide (provider = Some e.1))
         (registry w))).
Proof.
  unfold getChannelLabels, JSMap.entries, registry.
  exact (fold_left_labels
    (λ k, negb (truthy_opt provider) || bool_decide (provider = Some k))
    (chatProviders (mgr w)) []).
Qed.

Lemma filter_all {A} (l : list A) : List.filter (λ _, true) l = l.
Proof. induction l; simpl; by f_equal. Qed.

(** With distinct keys, at most one entry has the key [p]. *)
Lemma filter_key_wf (m : list (string * ChatProviderManager)) p :
  JSMap.wf m →
  List.filter (λ e, bool_decide (Some p = Some e.1)) m
  = match JSMap.get p m with Some cp => [(p, cp)] | None => [] end.
Proof.
  unfold JSMap.wf, JSMap.keys. induction m as [|[k cp] m IH]; simpl; [done|].
  intros [Hni Hnd]%NoDup_cons. specialize (IH Hnd).
  destruct (decide (k = p)) as [-> | Hne].
  - rewrite bool_decide_eq_true_2 by done. f_equal.
    rewrite IH. apply get_None_keys in Hni. by rewrite Hni.
  - rewrite bool_decide_eq_false_2 by congruence. done.
Qed.

(** An empty-string argument is falsy and so selects every session. *)
Lemma getChannelLabels_empty_string w :
  getChannelLabels w (Some "") = getChannelLabels w None.
Proof. by rewrite !getChannelLabels_filter. Qed.

(** ** The contact provider *)



Lemma initializeVslsContactProvider_cases w :
  initializeVslsContactProvider w
  = (Normal tt,
     if hasVslsExtension w then
       match nonVslsProviders w with
       | p :: _ =>
           match IStore.getCurrentUser (store (mgr w)) p with
           | Some cu => if isNotAlreadyInit w then bound p cu w else w
           | None => w
           end
       | [] => w
       end
     else w).
Proof.
  unfold initializeVslsContactProvider, nonVslsProviders, isNotAlreadyInit, bound.
  unfold mbind, M_bind. unfold bind at 1, gets at 1.
  destruct (List.filter _ (getEnabledProviders w)) as [|p rest]; simpl.
  - unfold bind, gets. simpl. by destruct (hasVslsExtension w).
  - unfold bind at 1, gets at 1. simpl.
    destruct (hasVslsExtension w); simpl; [|done].
    run.
    destruct (IStore.getCurrentUser (store (mgr w)) p) as [cu|]; [|done].
    destruct (vslsContactProvider (mgr w)) as [[pp []]|]; simpl; try done.
    all: unfold with_trace, with_mgr; simpl; rewrite <- !app_assoc; done.
Qed.

(** ** Corollaries *)

Lemma signout_resets w :
  resets (trace (exec signout w))
  = resets (trace w) + (if bool_decide (signedOut w = []) then 0 else 1).
Proof.
  unfold exec. destruct (signout_spec w) as (w' & -> & _ & _ & Htr & _). simpl.
  rewrite Htr, !resets_app, resets_ClearToken. by case_bool_decide.
Qed.

(** When every registered provider other than vsls has a stored credential,
    as it has right after [initializeToken], the reset command is executed
    exactly when some stored credential is gone afterwards. *)
Lemma signout_reset_iff_credential_removed w :
  (∀ p, p ∈ signedOut w → is_Some (tokens w !! p)) →
  resets (trace (exec signout w)) = resets (trace w) + 1
  ↔ ∃ p, is_Some (tokens w !! p) ∧ tokens (exec signout w) !! p = None.
Proof.
  intros Hheld. rewrite signout_resets.
  assert (Htok : tokens (exec signout w) = clearTokens (signedOut w) (tokens w)).
  { unfold exec. destruct (signout_spec w) as (w' & -> & _ & Ht & _). exact Ht. }
  rewrite Htok. split.
  - case_bool_decide as Hs; [lia|]. intros _.
    destruct (signedOut w) as [|p ps] eqn:Hso; [done|].
    exists p. split; [apply Hheld; left|].
    rewrite clearTokens_lookup, decide_True; [done|left].
  - intros (p & [t Ht] & Hgone). rewrite clearTokens_lookup in Hgone.
    destruct (decide (p ∈ signedOut w)) as [Hin|]; [|congruence].
    case_bool_decide as Hs; [|done]. rewrite Hs in Hin. by apply elem_of_nil in Hin.
Qed.

(** In a registry with distinct keys [clearAll] destroys the sessions of the
    providers other than vsls once each, in registration order. *)
Lemma clearAll_destroys_each_once w :
  JSMap.wf (registry w) →
  trace (exec clearAll w)
  = trace w ++ map Destroy (List.filter (λ e, bool_decide (e.1 ≠ "vsls")) (registry w)).*2.
Proof.
  intros Hwf. unfold exec.
  destruct (clearAll_spec w) as (w' & -> & _ & _ & Htr & _). simpl.
  by rewrite Htr, destroyed_wf.
Qed.

(** The registry keeps its keys distinct under every method that writes it. *)
Lemma clearAll_wf w : JSMap.wf (registry w) → JSMap.wf (registry (exec clearAll w)).
Proof.
  intros Hwf. unfold exec.
  destruct (clearAll_spec w) as (w' & -> & Hreg & _). simpl. rewrite Hreg.
  clear Hreg. unfold deleteAll. revert Hwf. generalize (registry w).
  induction (signedOut w) as [|k ks IH]; intros m Hm; simpl; [done|].
  apply IH. by apply wf_delete.
Qed.

(** ** Examples *)

Example getEnabledProviders_signedIn :
  getEnabledProviders signedIn = ["slack"; "vsls"; "discord"].
Proof. reflexivity. Qed.

Example initializeToken_signedIn :
  let w := exec (initializeToken (Some "slack")) signedIn in
  JSMap.keys (registry w) = ["slack"; "vsls"; "discord"]
  ∧ isTokenInitialized (mgr w) = true
  ∧ sessionsCreated "slack" w = 1.
Proof. vm_compute. done. Qed.

Example initializeToken_unsupported :
  outcome (initializeToken (Some "irc")) (with_tokens (<["irc" := "t"]>) signedIn)
  = Throw "unsupport chat provider: irc".
Proof. vm_compute. done. Qed.

(** ** Claims *)

(** C4: whatever current-user records the store holds and whether or not the
    Live Share extension is detected, [getEnabledProviders] lists every
    discovered provider id exactly once, also one found by both sources. *)
Theorem getEnabledProviders_each_once (w : World) :
  NoDup (getEnabledProviders w)
  ∧ (∀ p, p ∈ getEnabledProviders w ↔ p ∈ discovered w)
  ∧ (∀ p, p ∈ discovered w →
       length (List.filter (λ q, bool_decide (q = p)) (getEnabledProviders w)) = 1).
Proof.
  split_and!.
  - apply getEnabledProviders_NoDup.
  - apply getEnabledProviders_elem.
  - intros p Hp. apply NoDup_count_one.
    + apply getEnabledProviders_NoDup.
    + by apply getEnabledProviders_elem.
Qed.

(** C1: two calls of [initializeToken] in a row, from any registry and with
    the stored credentials they find, build at most one session per provider
    and none for a provider that already holds one; a provider holding a
    session holds the very same session after each call, whatever is passed as
    [newProvider]; and a second call with the argument of the first builds no
    session and leaves the registry as the first call left it. *)
Theorem initializeToken_twice (w : World) (np1 np2 : option string) :
  let w1 := exec (initializeToken np1) w in
  let w2 := exec (initializeToken np2) w1 in
  (∀ p, sessionsCreated p w2 ≤ sessionsCreated p w + 1)
  ∧ (∀ p, is_Some (JSMap.get p (registry w)) →
       sessionsCreated p w2 = sessionsCreated p w)
  ∧ (∀ p cp, JSMap.get p (registry w) = Some cp →
       JSMap.get p (registry w1) = Some cp ∧ JSMap.get p (registry w2) = Some cp)
  ∧ (∀ p cp, JSMap.get p (registry w1) = Some cp →
       JSMap.get p (registry w2) = Some cp)
  ∧ tokens w1 = tokens w ∧ tokens w2 = tokens w
  ∧ (JSMap.wf (registry w) → JSMap.wf (registry w2))
  ∧ (np2 = np1 →
       registry w2 = registry w1 ∧ ∀ p, sessionsCreated p w2 = sessionsCreated p w1).
Proof.
  intros w1 w2.
  pose proof (initializeToken_grows np1 w) as H1.
  pose proof (initializeToken_grows np2 w1) as H2.
  fold w1 in H1. fold w2 in H2.
  pose proof (grows_trans _ _ _ H1 H2) as H12.
  split_and!.
  - intros p. pose proof (grows_potential _ _ H12 p) as Hp.
    unfold potential in Hp.
    destruct (JSMap.get p (registry w2)), (JSMap.get p (registry w)); lia.
  - intros p [cp Hcp]. pose proof (grows_potential _ _ H12 p) as Hp.
    unfold potential in Hp.
    rewrite (grows_keeps _ _ H12 p cp Hcp), Hcp in Hp. lia.
  - intros p cp Hcp. split; [by apply (grows_keeps _ _ H1)|by apply (grows_keeps _ _ H12)].
  - intros p cp. apply (grows_keeps _ _ H2).
  - apply (grows_tokens _ _ H1).
  - apply (grows_tokens _ _ H12).
  - apply (grows_wf _ _ H12).
  - intros ->. subst w1 w2.
    destruct (initializeToken_again np1 w) as (Hreg & Hcr & _). by split.
Qed.

(** Signing in to Slack twice: one Slack session, built by the first call. *)
Lemma initializeToken_twice_witness :
  let w1 := exec (initializeToken (Some "slack")) signedIn in
  let w2 := exec (initializeToken (Some "slack")) w1 in
  registry w2 = registry w1 ∧ ∀ p, sessionsCreated p w2 = sessionsCreated p w1.
Proof.
  intros w1 w2.
  pose proof (initializeToken_twice signedIn (Some "slack") (Some "slack")) as H.
  exact (proj2 (proj2 (proj2 (proj2 (proj2 (proj2 (proj2 H)))))) eq_refl).
Defined.

Example initializeToken_twice_signedIn :
  let w1 := exec (initializeToken (Some "slack")) signedIn in
  let w2 := exec (initializeToken (Some "slack")) w1 in
  map (λ e, (e.1, cpm_sid e.2)) (registry w2) = [("slack", 0); ("vsls", 1); ("discord", 2)]
  ∧ sessionsCreated "slack" w2 = 1
  ∧ nextSid w2 = 3.
Proof. vm_compute. done. Qed.

(** C2, as the code has it: [signout] calls [clearToken] for every registered
    provider other than vsls and for no other, so that none of them has a
    stored credential afterwards and no other credential is touched. It
    executes the
    reset command once exactly when it made such a call, that is when a
    provider other than vsls is registered, whether or not a credential was
    stored for it, and not at all otherwise. When every registered provider
    other than vsls has a stored credential, the reset command is executed
    exactly when a stored credential is gone afterwards. *)
Theorem signout_clears_and_resets (w : World) :
  let w' := exec signout w in
  outcome signout w = Normal tt
  ∧ (∀ p, p ≠ "vsls" → is_Some (JSMap.get p (registry w)) → tokens w' !! p = None)
  ∧ (∀ p, p = "vsls" ∨ JSMap.get p (registry w) = None → tokens w' !! p = tokens w !! p)
  ∧ (∃ evs, trace w' = trace w ++ evs
      ∧ (∀ p, ClearToken p ∈ evs ↔ p ≠ "vsls" ∧ is_Some (JSMap.get p (registry w)))
      ∧ (resets evs = 1 ↔ ∃ p, ClearToken p ∈ evs)
      ∧ (resets evs = 0 ↔ ¬ ∃ p, ClearToken p ∈ evs))
  ∧ (resets (trace w') = resets (trace w) + 1
     ↔ ∃ p, p ≠ "vsls" ∧ is_Some (JSMap.get p (registry w)))
  ∧ (resets (trace w') = resets (trace w)
     ↔ ¬ ∃ p, p ≠ "vsls" ∧ is_Some (JSMap.get p (registry w)))
  ∧ ((∀ p, p ≠ "vsls" → is_Some (JSMap.get p (registry w)) → is_Some (tokens w !! p)) →
     (resets (trace w') = resets (trace w) + 1
      ↔ ∃ p, is_Some (tokens w !! p) ∧ tokens w' !! p = None)).
Proof.
  intros w'. subst w'.
  assert (Hregd : (∃ p, p ≠ "vsls" ∧ is_Some (JSMap.get p (registry w)))
                  ↔ signedOut w ≠ []).
  { setoid_rewrite <- signedOut_elem. split.
    - intros [p Hp] Hnil. rewrite Hnil in Hp. by apply elem_of_nil in Hp.
    - destruct (signedOut w) as [|p ps]; [done|]. intros _. exists p. left. }
  pose proof (signout_resets w) as Hresets.
  pose proof (signout_reset_iff_credential_removed w) as Hremoved.
  cut (outcome signout w = Normal tt
    ∧ (∀ p, p ≠ "vsls" → is_Some (JSMap.get p (registry w)) →
         tokens (exec signout w) !! p = None)
    ∧ (∀ p, p = "vsls" ∨ JSMap.get p (registry w) = None →
         tokens (exec signout w) !! p = tokens w !! p)
    ∧ (∃ evs, trace (exec signout w) = trace w ++ evs
        ∧ (∀ p, ClearToken p ∈ evs ↔ p ≠ "vsls" ∧ is_Some (JSMap.get p (registry w)))
        ∧ (resets evs = 1 ↔ ∃ p, ClearToken p ∈ evs)
        ∧ (resets evs = 0 ↔ ¬ ∃ p, ClearToken p ∈ evs))).
  { intros (H1 & H2 & H3 & H4).
    refine (conj H1 (conj H2 (conj H3 (conj H4 (conj _ (conj _ _)))))).
    - rewrite Hregd, Hresets.
      case_bool_decide; split; intros; first [done | lia | exfalso; lia].
    - rewrite Hregd, Hresets.
      case_bool_decide as Hs; split; intros; first [lia | tauto].
    - intros Hheld. apply Hremoved. intros p [? ?]%signedOut_elem. by apply Hheld. }
  clear Hregd Hresets Hremoved. unfold exec, outcome.
  destruct (signout_spec w) as (w' & -> & Hm & Ht & Htr & _). simpl.
  split_and!; [done|..].
  - intros p Hp Hreg. rewrite Ht, clearTokens_lookup.
    rewrite decide_True; [done|]. by apply signedOut_elem.
  - intros p Hp. rewrite Ht, clearTokens_lookup.
    rewrite decide_False; [done|]. rewrite signedOut_elem.
    intros [? [? ?]]. destruct Hp; congruence.
  - eexists. split; [exact Htr|].
    assert (Hel : ∀ p, ClearToken p ∈ map ClearToken (signedOut w) ++
        (if bool_decide (signedOut w = []) then []
         else [ExecuteCommand RESET_STORE None]) ↔ p ∈ signedOut w).
    { intros p. rewrite elem_of_app, list_elem_of_fmap. split.
      - intros [(q & [= ->] & ?) | Hin]; [done|].
        case_bool_decide; [by apply elem_of_nil in Hin|].
        by apply list_elem_of_singleton in Hin.
      - intros ?. left. by exists p. }
    rewrite resets_app, resets_ClearToken.
    split_and!.
    + intros p. by rewrite Hel, signedOut_elem.
    + setoid_rewrite Hel. case_bool_decide as Hs; simpl.
      * rewrite Hs. split; [done|]. by intros [p ?%elem_of_nil].
      * split; [|done]. intros _. destruct (signedOut w) as [|p ps]; [done|].
        exists p. left.
    + setoid_rewrite Hel. case_bool_decide as Hs; simpl.
      * rewrite Hs. split; [|done]. by intros _ [p ?%elem_of_nil].
      * split; [done|]. intros Hno. exfalso.
        destruct (signedOut w) as [|p ps]; [done|]. apply Hno. exists p. left.
Qed.

(** C10: [signout] leaves the manager object as it found it: the registry
    holds the same sessions in the same order, [isTokenInitialized] keeps its
    value, and no session is destroyed. *)
Theorem signout_keeps_registry (w : World) :
  let w' := exec signout w in
  registry w' = registry w
  ∧ isTokenInitialized (mgr w') = isTokenInitialized (mgr w)
  ∧ mgr w' = mgr w
  ∧ ∃ evs, trace w' = trace w ++ evs ∧ ∀ e, e ∈ evs → isDestroy e = false.
Proof.
  intros w'. subst w'. unfold exec, registry.
  destruct (signout_spec w) as (w' & -> & Hm & Ht & Htr & _). simpl.
  rewrite Hm. split_and!; [done..|].
  eexists. split; [exact Htr|].
  intros e [(p & -> & _)%list_elem_of_fmap | Hin]%elem_of_app; [done|].
  case_bool_decide; [by apply elem_of_nil in Hin|].
  by apply list_elem_of_singleton in Hin as ->.
Qed.

(** C3: after [clearAll] no provider other than vsls has a session, each
    session such a provider had was destroyed and the store state of its
    provider cleared, the vsls entry of the registry and the vsls state of the
    store are what they were, no vsls session was destroyed, and
    [isTokenInitialized] is false. *)
Theorem clearAll_keeps_only_vsls (w : World) :
  let w' := exec clearAll w in
  outcome clearAll w = Normal tt
  ∧ registry w' = List.filter (λ e, bool_decide (e.1 = "vsls")) (registry w)
  ∧ (∀ p, p ≠ "vsls" → JSMap.get p (registry w') = None)
  ∧ JSMap.get "vsls" (registry w') = JSMap.get "vsls" (registry w)
  ∧ (∃ gone, trace w' = trace w ++ map Destroy gone
       ∧ (∀ p cp, p ≠ "vsls" → JSMap.get p (registry w) = Some cp → cp ∈ gone)
       ∧ (∀ cp, cp ∈ gone → ∃ p, p ≠ "vsls" ∧ JSMap.get p (registry w) = Some cp))
  ∧ (∀ p, p ≠ "vsls" → is_Some (JSMap.get p (registry w)) →
       IStore.getCurrentUser (store (mgr w')) p = None
       ∧ IStore.getUsers (store (mgr w')) p = ∅
       ∧ IStore.getChannels (store (mgr w')) p = []
       ∧ IStore.getLastChannelId (store (mgr w')) p = None)
  ∧ (IStore.getCurrentUser (store (mgr w')) "vsls" = IStore.getCurrentUser (store (mgr w)) "vsls"
     ∧ IStore.getUsers (store (mgr w')) "vsls" = IStore.getUsers (store (mgr w)) "vsls"
     ∧ IStore.getChannels (store (mgr w')) "vsls" = IStore.getChannels (store (mgr w)) "vsls"
     ∧ IStore.getLastChannelId (store (mgr w')) "vsls"
       = IStore.getLastChannelId (store (mgr w)) "vsls")
  ∧ isTokenInitialized (mgr w') = false.
Proof.
  intros w'. subst w'. unfold exec, outcome.
  destruct (clearAll_spec w) as (w' & -> & Hreg & Hst & Htr & Hflag & _). simpl.
  assert (Hvsls : "vsls" ∉ signedOut w) by (rewrite signedOut_elem; tauto).
  split_and!; [done|..].
  - rewrite Hreg. apply deleteAll_registered.
  - intros p Hp. rewrite Hreg, get_deleteAll.
    destruct (decide (p ∈ signedOut w)) as [|Hni]; [done|].
    destruct (JSMap.get p (registry w)) eqn:Hget; [|done].
    exfalso. apply Hni, signedOut_elem. by rewrite Hget.
  - rewrite Hreg, get_deleteAll. by rewrite decide_False.
  - eexists. split; [exact Htr|]. split.
    + intros p cp Hp Hget. apply (destroyed_complete _ _ p); [|done..].
      apply get_is_Some_keys. by rewrite Hget.
    + intros cp (p & _ & ? & ?)%destroyed_sound. by exists p.
  - intros p Hp Hsome. rewrite Hst.
    rewrite clearStates_currentUser, clearStates_users, clearStates_channels,
      clearStates_lastChannelId.
    destruct (decide (p ∈ signedOut w)) as [|Hni]; [done|].
    exfalso. by apply Hni, signedOut_elem.
  - rewrite Hst, clearStates_currentUser. by destruct (decide ("vsls" ∈ signedOut w)).
  - rewrite Hst, clearStates_users. by destruct (decide ("vsls" ∈ signedOut w)).
  - rewrite Hst, clearStates_channels. by destruct (decide ("vsls" ∈ signedOut w)).
  - rewrite Hst, clearStates_lastChannelId. by destruct (decide ("vsls" ∈ signedOut w)).
  - done.
Qed.

(** C7: [clearOldWorkspace p] empties the persisted users and channels of [p]
    and unsets its last selected channel; what is persisted for any other
    provider stays, the current-user records stay, and the registry with
    every session in it stays, no session being destroyed. *)
Theorem clearOldWorkspace_resets_one_provider (w : World) (p : string) :
  let w' := exec (clearOldWorkspace p) w in
  let s := store (mgr w) in
  let s' := store (mgr w') in
  outcome (clearOldWorkspace p) w = Normal tt
  ∧ IStore.getUsers s' p = ∅
  ∧ IStore.getChannels s' p = []
  ∧ IStore.getLastChannelId s' p = None
  ∧ (∀ q, q ≠ p →
       IStore.getUsers s' q = IStore.getUsers s q
       ∧ IStore.getChannels s' q = IStore.getChannels s q
       ∧ IStore.getLastChannelId s' q = IStore.getLastChannelId s q)
  ∧ IStore.getCurrentUserForAll s' = IStore.getCurrentUserForAll s
  ∧ registry w' = registry w
  ∧ isTokenInitialized (mgr w') = isTokenInitialized (mgr w)
  ∧ trace w' = trace w.
Proof.
  unfold clearOldWorkspace. run.
  unfold IStore.getUsers, IStore.getChannels, IStore.getLastChannelId. simpl.
  rewrite !lookup_insert_eq, lookup_delete_eq.
  split_and!; try done.
  intros q Hq. by rewrite !lookup_insert_ne, lookup_delete_ne.
Qed.

Example clearOldWorkspace_running :
  let w' := exec (clearOldWorkspace "slack") running in
  IStore.getUsers (store (mgr w')) "slack" = ∅
  ∧ IStore.getChannels (store (mgr w')) "slack" = []
  ∧ IStore.getLastChannelId (store (mgr w')) "slack" = None
  ∧ IStore.getChannels (store (mgr w')) "discord" = [general]
  ∧ IStore.getLastChannelId (store (mgr w')) "discord" = Some "C1"
  ∧ JSMap.get "slack" (registry w') = Some slackSession.
Proof. vm_compute. done. Qed.

(** C8: for a provider id other than discord, slack and vsls, and any token,
    [instantiateChatProvider] throws; it returns no backend. *)
Theorem instantiateChatProvider_unsupported (token provider : string) :
  provider ∉ ["discord"; "slack"; "vsls"] →
  instantiateChatProvider token provider
  = Throw ("unsupport chat provider: " +:+ provider).
Proof.
  intros Hp. unfold instantiateChatProvider.
  repeat case_decide; subst; try done; exfalso; apply Hp; set_solver.
Qed.

Lemma instantiateChatProvider_unsupported_witness :
  instantiateChatProvider "t0k3n" "irc" = Throw "unsupport chat provider: irc".
Proof.
  apply (instantiateChatProvider_unsupported "t0k3n" "irc").
  rewrite !not_elem_of_cons. split_and!; [done..|apply not_elem_of_nil].
Defined.

Lemma instantiateChatProvider_supported token provider :
  provider ∈ ["discord"; "slack"; "vsls"] →
  ∃ chatProvider, instantiateChatProvider token provider = Normal chatProvider.
Proof.
  rewrite !elem_of_cons. intros [-> | [-> | [-> | ?%elem_of_nil]]]; [by eexists..|done].
Qed.

(** C5, as the code has it: every dispatch method, called for a provider id
    that has no session in the registry, completes normally (it does not
    throw) with its absent result, which is [undefined] except for
    [getMessages] (an empty object), [getUnreadCount] (0) and
    [isAuthenticated] (false). *)
Theorem dispatch_absent (w : World) (providerName : string) (op : DispatchOp) :
  JSMap.get providerName (registry w) = None →
  dispatch w providerName op = Completes (Normal (absentResult op)).
Proof.
  intros Hnone. unfold registry in Hnone.
  destruct op; simpl;
    unfold isAuthenticated, createIMChannel, getUserPresence, getCurrentUserPresence,
      loadChannelHistory, updateReadMarker, sendMessage, updateSelfPresence,
      addReaction, removeReaction, fetchThreadReplies, updateMessageReply,
      updateMessages, updateChannelMarked, updatePresenceForUser, getChannel,
      fetchUsers, fetchChannels, getMessages, getUnreadCount, dispatchTo;
    by rewrite Hnone.
Qed.

Lemma dispatch_absent_witness :
  JSMap.get "ghost" (registry running) = None
  ∧ sendMessage running "ghost" "hello" "C1" None = Completes (Normal undefined)
  ∧ getUnreadCount running "ghost" general = Completes (Normal (number 0)).
Proof.
  split_and!; [reflexivity|..].
  - exact (dispatch_absent running "ghost" (op_sendMessage "hello" "C1" None) eq_refl).
  - exact (dispatch_absent running "ghost" (op_getUnreadCount general) eq_refl).
Defined.

(** C5 as stated fails: without a session [getMessages] answers an empty
    object, which is not [undefined]. *)
Lemma getMessages_absent_not_undefined :
  JSMap.get "ghost" (registry running) = None
  ∧ dispatch running "ghost" op_getMessages = Completes (Normal emptyObject)
  ∧ dispatch running "ghost" op_getMessages ≠ Completes (Normal undefined).
Proof. split_and!; [reflexivity..|discriminate]. Qed.

(** C2 as stated fails: with sessions registered whose credentials are already
    gone, [signout] clears no stored credential and still executes the reset
    command. *)
Lemma signout_resets_without_stored_credential :
  JSMap.get "slack" (registry signedOutOnce) = Some slackSession
  ∧ tokens signedOutOnce !! "slack" = None
  ∧ tokens (exec signout signedOutOnce) = tokens signedOutOnce
  ∧ resets (trace signedOutOnce) = 0
  ∧ resets (trace (exec signout signedOutOnce)) = 1.
Proof. vm_compute. split_and!; reflexivity. Qed.

(** That world is the one a first [signout] leaves, its record of calls
    apart. *)
Example signedOutOnce_reached :
  mgr (exec signout running) = mgr signedOutOnce
  ∧ tokens (exec signout running) = tokens signedOutOnce.
Proof. vm_compute. split; reflexivity. Qed.

Lemma dispatch_present w providerName op cp :
  JSMap.get providerName (registry w) = Some cp →
  ∃ call, dispatch w providerName op = Forwarded cp call.
Proof.
  intros Hcp. unfold registry in Hcp.
  destruct op; simpl;
    unfold isAuthenticated, createIMChannel, getUserPresence, getCurrentUserPresence,
      loadChannelHistory, updateReadMarker, sendMessage, updateSelfPresence,
      addReaction, removeReaction, fetchThreadReplies, updateMessageReply,
      updateMessages, updateChannelMarked, updatePresenceForUser, getChannel,
      fetchUsers, fetchChannels, getMessages, getUnreadCount, dispatchTo;
    rewrite Hcp; by eexists.
Qed.

(** C6, as the code has it: without a provider argument [getChannelLabels]
    returns the labels of the registered sessions one session after the other
    in registration order; with a provider id other than the empty string it
    returns the labels of that provider's session, and none when the provider
    has no session. *)
Theorem getChannelLabels_registration_order (w : World) :
  getChannelLabels w None
  = concat (map (λ e, cpm_channelLabels e.2) (registry w))
  ∧ ∀ p, p ≠ "" → JSMap.wf (registry w) →
      getChannelLabels w (Some p)
      = match JSMap.get p (registry w) with
        | Some cp => cpm_channelLabels cp
        | None => []
        end.
Proof.
  split.
  - rewrite getChannelLabels_filter. simpl. by rewrite filter_all.
  - intros p Hp Hwf. rewrite getChannelLabels_filter.
    assert (Htruthy : truthy_opt (Some p) = true) by by apply bool_decide_eq_true_2.
    rewrite Htruthy. simpl. rewrite (filter_key_wf _ _ Hwf).
    destruct (JSMap.get p (registry w)); simpl; [by rewrite app_nil_r|done].
Qed.

Lemma running_wf : JSMap.wf (registry running).
Proof.
  unfold JSMap.wf, JSMap.keys, running, registry. simpl.
  rewrite !NoDup_cons, !not_elem_of_cons.
  split_and!; try done; try apply not_elem_of_nil. apply NoDup_nil_2.
Qed.

Lemma getChannelLabels_registration_order_witness :
  getChannelLabels running (Some "discord") = cpm_channelLabels discordSession
  ∧ getChannelLabels running (Some "ghost") = [].
Proof.
  pose proof (getChannelLabels_registration_order running) as [_ H].
  split.
  - exact (H "discord" ltac:(done) running_wf).
  - exact (H "ghost" ltac:(done) running_wf).
Defined.

(** C6 as stated fails at the empty string: it has no session, yet
    [getChannelLabels ""] returns the labels of every session. *)
Lemma getChannelLabels_empty_string_all :
  JSMap.get "" (registry running) = None
  ∧ map label_text (getChannelLabels running (Some ""))
    = ["general"; "alice"; "session"; "lobby"]
  ∧ getChannelLabels running (Some "") ≠ [].
Proof. split_and!; [reflexivity..|discriminate]. Qed.

(** Registration order, not alphabetical order. *)
Example getChannelLabels_running :
  map label_text (getChannelLabels running None)
  = ["general"; "alice"; "session"; "lobby"].
Proof. reflexivity. Qed.



(** Without the extension, or with no provider other than vsls enabled, no
    contact provider is built. *)
Lemma initializeVslsContactProvider_not_applicable w :
  hasVslsExtension w = false ∨ nonVslsProviders w = [] →
  initializeVslsContactProvider w = (Normal tt, w).
Proof.
  rewrite initializeVslsContactProvider_cases.
  intros [-> | ->]; [done|]. by destruct (hasVslsExtension w).
Qed.

Example initializeVslsContactProvider_running :
  trace (exec initializeVslsContactProvider running)
  = [ContactRegister "slack";
     NotifySelfContact "slack" (Some alice);
     NotifyAvailableUsers "slack" "U1" {[ "U1" := alice ]}].
Proof. vm_compute. reflexivity. Qed.

Example signout_running :
  let w' := exec signout running in
  resets (trace w') = 1
  ∧ tokens w' = {[ "vsls" := "vsls-token" ]}
  ∧ registry w' = registry running.
Proof. vm_compute. done. Qed.

Example signout_vslsOnly :
  let w' := exec signout vslsOnly in
  resets (trace w') = 0 ∧ trace w' = [] ∧ tokens w' = tokens vslsOnly.
Proof. vm_compute. done. Qed.

Example clearAll_running :
  let w' := exec clearAll running in
  registry w' = [("vsls", vslsSession)]
  ∧ trace w' = [Destroy slackSession; Destroy discordSession]
  ∧ isTokenInitialized (mgr w') = false
  ∧ IStore.getCurrentUserForAll (store (mgr w'))
    = [ {| cu_id := "V1"; cu_provider := "vsls"; cu_currentTeamId := None |} ].
Proof. vm_compute. done. Qed.

(** ** The claims at the sample worlds *)

Lemma getEnabledProviders_each_once_witness :
  length (List.filter (λ q, bool_decide (q = "vsls")) (getEnabledProviders signedIn)) = 1.
Proof.
  apply (proj2 (proj2 (getEnabledProviders_each_once signedIn)) "vsls").
  unfold discovered. simpl. rewrite !elem_of_cons. auto.
Defined.

Lemma signout_clears_and_resets_witness :
  tokens (exec signout running) !! "slack" = None
  ∧ tokens (exec signout running) !! "vsls" = tokens running !! "vsls".
Proof.
  pose proof (signout_clears_and_resets running) as (_ & Hclear & Hkeep & _).
  split.
  - apply Hclear; [done|]. by eexists.
  - apply Hkeep. by left.
Defined.

Lemma signout_keeps_registry_witness :
  registry (exec signout running) = registry running
  ∧ isTokenInitialized (mgr (exec signout running)) = true.
Proof.
  pose proof (signout_keeps_registry running) as (Hreg & Hflag & _).
  split; [exact Hreg|exact Hflag].
Defined.

Lemma clearAll_keeps_only_vsls_witness :
  JSMap.get "slack" (registry (exec clearAll running)) = None
  ∧ JSMap.get "vsls" (registry (exec clearAll running)) = Some vslsSession
  ∧ IStore.getChannels (store (mgr (exec clearAll running))) "discord" = [].
Proof.
  pose proof (clearAll_keeps_only_vsls running)
    as (_ & _ & Hgone & Hvsls & _ & Hstore & _).
  split_and!.
  - by apply Hgone.
  - exact Hvsls.
  - apply (Hstore "discord"); [done|]. by eexists.
Defined.

Lemma clearOldWorkspace_resets_one_provider_witness :
  IStore.getUsers (store (mgr (exec (clearOldWorkspace "slack") running))) "slack" = ∅
  ∧ IStore.getChannels (store (mgr (exec (clearOldWorkspace "slack") running))) "discord"
    = IStore.getChannels (store (mgr running)) "discord".
Proof.
  pose proof (clearOldWorkspace_resets_one_provider running "slack")
    as (_ & Husers & _ & _ & Hother & _).
  split; [exact Husers|]. by apply (Hother "discord").
Defined.

(** * Further properties *)

(** ** Helper facts *)

Lemma get_app {V} (a b : list (string * V)) k :
  JSMap.get k (a ++ b)
  = match JSMap.get k a with Some v => Some v | None => JSMap.get k b end.
Proof.
  induction a as [|[k' v'] a IH]; simpl; [done|]. by case_decide.
Qed.

Lemma set_absent {V} (m : list (string * V)) k v :
  JSMap.get k m = None → JSMap.set k v m = m ++ [(k, v)].
Proof. intros H. apply set_notin. by apply get_None_keys. Qed.


Lemma needs_true w x :
  needs w x = true ↔ x ≠ "" ∧ ∃ token, tokens w !! x = Some token ∧ token ≠ "".
Proof.
  unfold needs, truthy_opt, truthy. rewrite andb_true_iff, bool_decide_eq_true.
  destruct (tokens w !! x) as [token|].
  - rewrite bool_decide_eq_true. split.
    + intros [? ?]. split; [done|]. by exists token.
    + intros [? (t & [= <-] & ?)]. done.
  - split; [by intros [_ ?]|]. by intros [_ (t & ? & _)].
Qed.

Lemma candidates_elem newProvider w x :
  x ∈ candidates newProvider w
  ↔ x ∈ getEnabledProviders w ∨ (newProvider = Some x ∧ x ≠ "").
Proof.
  unfold candidates. destruct newProvider as [np|].
  - unfold truthy. case_bool_decide as Hnp.
    + rewrite elem_of_app, list_elem_of_singleton. split.
      * intros [? | ->]; [by left|by right].
      * intros [? | [[= ->] _]]; [by left|by right].
    + split; [by left|]. intros [? | [[= ->] ?]]; [done|]. subst. done.
  - split; [by left|]. by intros [? | [? _]].
Qed.

(** What one pass of the loop of [initializeToken] does, case by case. *)
Lemma tokenStep_cases x w :
  (needs w x = false ∧ tokenStep tt x w = (Normal tt, w))
  ∨ (needs w x = true ∧ is_Some (JSMap.get x (registry w))
     ∧ tokenStep tt x w = (Normal tt, with_mgr (set_isTokenInitialized true) w))
  ∨ (needs w x = true ∧ JSMap.get x (registry w) = None
     ∧ ∃ token, tokens w !! x = Some token ∧ token ≠ "" ∧ x ≠ ""
         ∧ ((∃ msg, instantiateChatProvider token x = Throw msg
                    ∧ tokenStep tt x w = (Throw msg, w))
            ∨ (∃ chatProvider, instantiateChatProvider token x = Normal chatProvider
                    ∧ tokenStep tt x w = (Normal tt, registered x chatProvider w)))).
Proof.
  unfold tokenStep, needs, registry, truthy_opt, truthy.
  case_bool_decide as Hx; simpl; [|by left].
  run.
  destruct (tokens w !! x) as [token|]; simpl; [|by left].
  case_bool_decide as Ht; simpl; [|by left].
  destruct (JSMap.get x (chatProviders (mgr w))) eqn:Hget; simpl.
  { right. left. split_and!; [done|by eexists|done]. }
  right. right. split_and!; [done..|]. exists token. split_and!; [done..|].
  destruct (instantiateChatProvider token x) as [chatProvider | msg]; simpl.
  - right. by exists chatProvider.
  - left. by exists msg.
Qed.

(** ** The loop of [initializeToken], in closed form *)

(** However the loop ends, what it has done by then is to append entries to
    the registry: one per provider it built a session for, in the order of
    the providers it walked through, each recorded by one event. *)
Lemma forOf_tokenStep_appends l :
  ∀ w r wl, forOf l tokenStep tt w = (r, wl) →
  ∃ new,
    registry wl = registry w ++ new
    ∧ sublist new.*1 l
    ∧ Forall (freshEntry w wl) new
    ∧ nextSid wl = nextSid w + length new
    ∧ trace wl = trace w ++ map builtEvent new.
Proof.
  induction l as [|x l IH]; intros w r wl; simpl.
  - intros [= <- <-]. exists []. rewrite !app_nil_r. simpl.
    split_and!; first [done | lia | constructor].
  - unfold mbind, M_bind, bind.
    destruct (tokenStep_cases x w)
      as [[_ ->] | [(_ & _ & ->) | (_ & Hnone & token & Htok & Ht & Hx & Hstep)]].
    + intros (new & ? & ? & ? & ? & ?)%IH. exists new.
      split_and!; try done. by apply sublist_cons.
    + intros (new & Hreg & Hsub & Hfresh & Hsid & Htr)%IH. exists new.
      split_and!; try done. by apply sublist_cons.
    + destruct Hstep as [(msg & _ & ->) | (chatProvider & Hinst & ->)].
      * intros [= <- <-]. exists []. rewrite !app_nil_r. simpl.
        split_and!; first [done | lia | apply sublist_nil_l | constructor].
      * intros (new & Hreg & Hsub & Hfresh & Hsid & Htr)%IH.
        assert (Hreg1 : registry (registered x chatProvider w)
                  = registry w ++ [(x, newSession x chatProvider w)]).
        { unfold registry in *. simpl. by apply set_absent. }
        exists ((x, newSession x chatProvider w) :: new).
        simpl in Hsid. split_and!.
        -- by rewrite Hreg, Hreg1, <- app_assoc.
        -- simpl. by apply sublist_skip.
        -- constructor.
           ++ unfold freshEntry. simpl. split_and!; try done; try lia.
              by exists token.
           ++ eapply Forall_impl; [exact Hfresh|].
              intros [k cp] (Hk & ? & ? & ? & Htoken). unfold freshEntry.
              simpl in *. rewrite Hreg1, get_app in Hk.
              split_and!; try done; try lia.
              by destruct (JSMap.get k (registry w)).
        -- simpl. lia.
        -- rewrite Htr. simpl. by rewrite <- app_assoc.
Qed.


(** ** [initializeViewsManager] *)

Lemma initializeViewsManager_collects w :
  initializeViewsManager w
  = (Normal tt,
     with_trace
       (λ t, t ++ [ViewsInitialize (JSMap.keys (registry w))
                     (collectTeams (registry w) (JSMap.keys (registry w)) [])]) w).
Proof.
  unfold initializeViewsManager.
  erewrite bind_normal by (unfold gets; reflexivity).
  assert (Hloop : ∀ ks acc,
    forOf ks
      (λ (providerTeams : list (string * list Team)) (provider : string),
         chatProvider ← gets (λ w, JSMap.get provider (chatProviders (mgr w)));
         match chatProvider with
         | Some cp => ret (JSMap.set provider (cpm_teams cp) providerTeams)
         | None => ret providerTeams
         end) acc w
    = (Normal (collectTeams (registry w) ks acc), w)).
  { induction ks as [|k ks IH]; intros acc; [done|].
    cbn [forOf].
    erewrite bind_normal; [apply IH|].
    unfold mbind, M_bind, bind, gets, ret, registry. simpl.
    by destruct (JSMap.get k (chatProviders (mgr w))). }
  erewrite bind_normal by apply Hloop. reflexivity.
Qed.

Lemma collectTeams_get m ks acc p :
  JSMap.get p (collectTeams m ks acc)
  = if decide (p ∈ ks) then
      match JSMap.get p m with
      | Some cp => Some (cpm_teams cp)
      | None => JSMap.get p acc
      end
    else JSMap.get p acc.
Proof.
  unfold collectTeams. revert acc. induction ks as [|k ks IH]; intros acc; cbn [foldl].
  - by destruct (decide (p ∈ [])) as [?%elem_of_nil|].
  - rewrite IH.
    assert (Hstep : JSMap.get p
        match JSMap.get k m with
        | Some cp => JSMap.set k (cpm_teams cp) acc
        | None => acc
        end
      = if decide (p = k) then
          match JSMap.get p m with
          | Some cp => Some (cpm_teams cp)
          | None => JSMap.get p acc
          end
        else JSMap.get p acc).
    { destruct (decide (p = k)) as [-> | Hpk].
      - destruct (JSMap.get k m); [apply get_set_eq|done].
      - destruct (JSMap.get k m); [apply get_set_ne; congruence|done]. }
    rewrite Hstep.
    destruct (decide (p ∈ ks)) as [Hin | Hni], (decide (p ∈ k :: ks)) as [Hin' | Hni'],
      (decide (p = k)) as [-> | Hne]; try done.
    + by destruct (JSMap.get k m).
    + exfalso. apply Hni'. by right.
    + exfalso. apply Hni'. by right.
    + apply elem_of_cons in Hin' as [? | ?]; done.
    + exfalso. apply Hni'. left.
Qed.

Lemma teamsOf_keys m : JSMap.keys (teamsOf m) = JSMap.keys m.
Proof.
  unfold teamsOf, JSMap.keys. induction m as [|e m IH]; simpl; by f_equal.
Qed.

Lemma collectTeams_wf (m : list (string * ChatProviderManager)) :
  JSMap.wf m → collectTeams m (JSMap.keys m) [] = teamsOf m.
Proof.
  assert (Hgen : ∀ (rest front : list (string * ChatProviderManager)),
    JSMap.wf (front ++ rest) →
    collectTeams (front ++ rest) (JSMap.keys rest) (teamsOf front)
    = teamsOf (front ++ rest)).
  { induction rest as [|[k cp] rest IH]; intros front Hwf.
    - by rewrite app_nil_r.
    - unfold collectTeams. cbn [JSMap.keys fmap list_fmap foldl fst].
      assert (Hkf : k ∉ JSMap.keys front).
      { unfold JSMap.wf, JSMap.keys in *. rewrite fmap_app in Hwf.
        apply NoDup_app in Hwf as (_ & Hdisj & _).
        intros Hin. apply (Hdisj k Hin). left. }
      rewrite get_app.
      rewrite (proj2 (get_None_keys front k) Hkf). simpl.
      rewrite decide_True by done.
      rewrite set_notin by by rewrite teamsOf_keys.
      replace (front ++ (k, cp) :: rest) with ((front ++ [(k, cp)]) ++ rest)
        by by rewrite <- app_assoc.
      replace (teamsOf front ++ [(k, cpm_teams cp)]) with (teamsOf (front ++ [(k, cp)]))
        by (unfold teamsOf; by rewrite map_app).
      apply IH. by rewrite <- app_assoc. }
  intros Hwf. apply (Hgen m [] Hwf).
Qed.

(** ** [initializeToken], end to end *)

Lemma initializeToken_ends newProvider w r wl :
  forOf (candidates newProvider w) tokenStep tt w = (r, wl) →
  match r with
  | Normal _ =>
      initializeToken newProvider w
      = (Normal tt,
         with_trace
           (λ t, t ++ [ViewsInitialize (JSMap.keys (registry wl))
                         (collectTeams (registry wl) (JSMap.keys (registry wl)) [])]) wl)
  | Throw e => initializeToken newProvider w = (Throw e, wl)
  end.
Proof.
  intros Hrun. rewrite initializeToken_unfold, Hrun.
  destruct r; [apply initializeViewsManager_collects|done].
Qed.

Lemma forOf_tokenStep_flag l :
  ∀ w r wl, forOf l tokenStep tt w = (r, wl) →
  (isTokenInitialized (mgr w) = true → isTokenInitialized (mgr wl) = true)
  ∧ (r = Normal tt →
       (isTokenInitialized (mgr wl) = true
        ↔ isTokenInitialized (mgr w) = true ∨ ∃ x, x ∈ l ∧ needs w x = true)).
Proof.
  induction l as [|x l IH]; intros w r wl; simpl.
  - intros [= <- <-]. split; [done|]. intros _. split; [by left|].
    by intros [? | (x & ?%elem_of_nil & _)].
  - unfold mbind, M_bind, bind.
    destruct (tokenStep_cases x w)
      as [[Hn ->] | [(Hn & _ & ->) | (Hn & Hnone & token & Htok & Ht & Hx & Hstep)]].
    + intros [Hmono Hiff]%IH. split; [done|]. intros Hr. rewrite (Hiff Hr).
      split.
      * intros [? | (y & ? & ?)]; [by left|]. right. exists y. split; [by right|done].
      * intros [? | (y & [-> | ?]%elem_of_cons & Hy)]; [by left|congruence|].
        right. by exists y.
    + intros [Hmono Hiff]%IH. simpl in *. split; [auto|]. intros Hr.
      split; [|intros _; by apply Hmono].
      intros _. right. exists x. split; [left|done].
    + destruct Hstep as [(msg & _ & ->) | (chatProvider & Hinst & ->)].
      * intros [= <- <-]. split; [done|]. done.
      * intros [Hmono Hiff]%IH. simpl in *. split; [auto|]. intros Hr.
        split; [|intros _; by apply Hmono].
        intros _. right. exists x. split; [left|done].
Qed.

Lemma forOf_tokenStep_sidsOk l :
  ∀ w r wl, forOf l tokenStep tt w = (r, wl) → sidsOk w → sidsOk wl.
Proof.
  induction l as [|x l IH]; intros w r wl; simpl.
  - by intros [= <- <-].
  - unfold mbind, M_bind, bind.
    destruct (tokenStep_cases x w)
      as [[Hn ->] | [(Hn & _ & ->) | (Hn & Hnone & token & Htok & Ht & Hx & Hstep)]].
    + apply IH.
    + intros Hrun Hok. by apply (IH _ _ _ Hrun).
    + destruct Hstep as [(msg & _ & ->) | (chatProvider & Hinst & ->)].
      * by intros [= <- <-].
      * intros Hrun [Hlt Hnd]. apply (IH _ _ _ Hrun).
        unfold sidsOk, registry in *. simpl.
        rewrite set_absent by done. split.
        -- apply Forall_app. split.
           ++ eapply Forall_impl; [exact Hlt|]. intros e ?. simpl in *. lia.
           ++ constructor; [simpl; lia|constructor].
        -- rewrite map_app. simpl. apply NoDup_app. split_and!.
           ++ done.
           ++ intros sid Hin ->%list_elem_of_singleton.
              apply list_elem_of_fmap in Hin as (e & He & Hin).
              rewrite Forall_forall in Hlt. specialize (Hlt e Hin). simpl in *. lia.
           ++ apply NoDup_singleton.
Qed.

(** X1. After a call that completes normally, every provider the loop walked
    through (an enabled one, or [newProvider]) with a non-empty id and a
    non-empty stored token is enabled. *)
Theorem initializeToken_enables (newProvider : option string) (w : World) :
  outcome (initializeToken newProvider) w = Normal tt →
  ∀ x token,
    x ∈ getEnabledProviders w ∨ newProvider = Some x →
    x ≠ "" → tokens w !! x = Some token → token ≠ "" →
    isProviderEnabled (exec (initializeToken newProvider) w) x = true.
Proof.
  unfold outcome, exec. intros Hout x token Hx Hne Htok Ht.
  destruct (forOf (candidates newProvider w) tokenStep tt w) as [r wl] eqn:Hrun.
  pose proof (initializeToken_ends _ _ _ _ Hrun) as Hend.
  destruct r as [[] | e]; rewrite Hend in *; [|done]. simpl.
  destruct (forOf_tokenStep_again _ _ _ _ Hrun) as [Hg _].
  destruct (forOf_tokenStep_normal _ _ _ Hrun x) as [cp Hcp].
  - apply candidates_elem. destruct Hx as [? | ->]; [by left|by right].
  - rewrite (grows_needs _ _ _ Hg). apply needs_true. split; [done|]. by exists token.
  - unfold isProviderEnabled, registry in *. simpl. by rewrite Hcp.
Qed.

Lemma initializeToken_enables_witness :
  isProviderEnabled (exec (initializeToken (Some "slack")) signedIn) "discord" = true.
Proof.
  apply (initializeToken_enables (Some "slack") signedIn
           ltac:(vm_compute; reflexivity) "discord" "d-1").
  - left. rewrite getEnabledProviders_signedIn, !elem_of_cons. auto.
  - done.
  - vm_compute. reflexivity.
  - done.
Defined.

(** X2. [initializeToken] never resets [isTokenInitialized]; when it completes
    normally the flag is set exactly if it was set before or some provider the
    loop walked through has a non-empty id and a non-empty stored token. *)
Theorem initializeToken_flag (newProvider : option string) (w : World) :
  let w' := exec (initializeToken newProvider) w in
  (isTokenInitialized (mgr w) = true → isTokenInitialized (mgr w') = true)
  ∧ (outcome (initializeToken newProvider) w = Normal tt →
       (isTokenInitialized (mgr w') = true
        ↔ isTokenInitialized (mgr w) = true
          ∨ ∃ x token, x ∈ candidates newProvider w ∧ x ≠ ""
              ∧ tokens w !! x = Some token ∧ token ≠ "")).
Proof.
  intros w'. subst w'. unfold outcome, exec.
  destruct (forOf (candidates newProvider w) tokenStep tt w) as [r wl] eqn:Hrun.
  pose proof (initializeToken_ends _ _ _ _ Hrun) as Hend.
  destruct (forOf_tokenStep_flag _ _ _ _ Hrun) as [Hmono Hiff].
  destruct r as [[] | e]; rewrite Hend; simpl.
  - split; [done|]. intros _. rewrite (Hiff eq_refl).
    split.
    + intros [? | (x & Hx & (? & token & ? & ?)%needs_true)]; [by left|].
      right. by exists x, token.
    + intros [? | (x & token & Hx & ? & ? & ?)]; [by left|].
      right. exists x. split; [done|]. apply needs_true. split; [done|]. by exists token.
  - done.
Qed.

Lemma initializeToken_flag_witness :
  isTokenInitialized (mgr (exec (initializeToken None) signedIn)) = true.
Proof.
  apply (proj2 (initializeToken_flag None signedIn) ltac:(vm_compute; reflexivity)).
  right. exists "slack", "xoxp-1". split_and!; try done.
  unfold candidates. rewrite getEnabledProviders_signedIn, !elem_of_cons. auto.
Defined.






(** X4. When no provider the loop walks through has both a non-empty id and a
    non-empty stored token, [initializeToken] completes normally, builds no
    session, leaves the registry and [isTokenInitialized] as they were, and
    still initializes the views once. *)
Theorem initializeToken_without_tokens (newProvider : option string) (w : World) :
  (∀ x, x ∈ candidates newProvider w → needs w x = false) →
  let w' := exec (initializeToken newProvider) w in
  outcome (initializeToken newProvider) w = Normal tt
  ∧ registry w' = registry w
  ∧ isTokenInitialized (mgr w') = isTokenInitialized (mgr w)
  ∧ nextSid w' = nextSid w
  ∧ trace w' = trace w ++ [ViewsInitialize (JSMap.keys (registry w))
                             (collectTeams (registry w) (JSMap.keys (registry w)) [])].
Proof.
  intros Hnone w'. subst w'. unfold outcome, exec.
  destruct (forOf_tokenStep_replay (candidates newProvider w) w) as (wl & Hrun & Hsame).
  { intros x Hx Hn. rewrite (Hnone x Hx) in Hn. done. }
  pose proof (initializeToken_ends _ _ _ _ Hrun) as Hend. rewrite Hend. simpl.
  destruct (forOf_tokenStep_flag _ _ _ _ Hrun) as [_ Hiff].
  destruct Hsame as [Hreg Htr _ _ _ Hsid _]. unfold registry in *.
  rewrite Hreg, Htr. split_and!; try done.
  destruct (isTokenInitialized (mgr wl)) eqn:Hwl, (isTokenInitialized (mgr w)) eqn:Hw;
    try done.
  - destruct (proj1 (Hiff eq_refl) eq_refl) as [? | (x & Hx & Hn)]; [done|].
    by rewrite (Hnone x Hx) in Hn.
  - by destruct (proj2 (Hiff eq_refl) (or_introl eq_refl)).
Qed.

Lemma initializeToken_without_tokens_witness :
  registry (exec (initializeToken None) (with_tokens (λ _, ∅) running)) = registry running
  ∧ nextSid (exec (initializeToken None) (with_tokens (λ _, ∅) running)) = 3.
Proof.
  destruct (initializeToken_without_tokens None (with_tokens (λ _, ∅) running))
    as (_ & Hreg & _ & Hsid & _).
  - intros x _. unfold needs. simpl. by rewrite lookup_empty, andb_false_r.
  - split; [exact Hreg|exact Hsid].
Defined.

(** X5. [initializeToken] keeps session identities apart: when every
    registered session has an identity below the next one to hand out and no
    two share one, the same holds afterwards. *)
Theorem initializeToken_sidsOk (newProvider : option string) (w : World) :
  sidsOk w → sidsOk (exec (initializeToken newProvider) w).
Proof.
  intros Hok. unfold exec.
  destruct (forOf (candidates newProvider w) tokenStep tt w) as [r wl] eqn:Hrun.
  pose proof (initializeToken_ends _ _ _ _ Hrun) as Hend.
  pose proof (forOf_tokenStep_sidsOk _ _ _ _ Hrun Hok) as Hokl.
  destruct r as [[] | e]; by rewrite Hend.
Qed.

Lemma initializeToken_sidsOk_witness :
  sidsOk (exec (initializeToken (Some "slack")) signedIn).
Proof.
  apply (initializeToken_sidsOk (Some "slack") signedIn).
  split; [constructor|constructor].
Defined.

(** X6. A session [initializeToken] registers for a provider that had none
    carries that provider's name, a backend built from that provider's stored
    token, and an identity handed out during the call. *)
Theorem initializeToken_new_session (newProvider : option string) (w : World)
    (p : string) (cp : ChatProviderManager) :
  let w' := exec (initializeToken newProvider) w in
  JSMap.get p (registry w) = None →
  JSMap.get p (registry w') = Some cp →
  cpm_providerName cp = p
  ∧ nextSid w ≤ cpm_sid cp < nextSid w'
  ∧ ∃ token, tokens w !! p = Some token ∧ token ≠ ""
      ∧ instantiateChatProvider token p = Normal (cpm_chatProvider cp).
Proof.
  intros w'. subst w'. unfold exec.
  destruct (forOf (candidates newProvider w) tokenStep tt w) as [r wl] eqn:Hrun.
  pose proof (initializeToken_ends _ _ _ _ Hrun) as Hend.
  destruct (forOf_tokenStep_appends _ _ _ _ Hrun) as (new & Hreg & _ & Hfresh & _ & _).
  assert (Hwl : JSMap.get p (registry w) = None → JSMap.get p (registry wl) = Some cp →
    cpm_providerName cp = p
    ∧ nextSid w ≤ cpm_sid cp < nextSid wl
    ∧ ∃ token, tokens w !! p = Some token ∧ token ≠ ""
        ∧ instantiateChatProvider token p = Normal (cpm_chatProvider cp)).
  { intros Hnone Hcp. rewrite Hreg, get_app, Hnone in Hcp. apply get_Some_elem in Hcp.
    rewrite Forall_forall in Hfresh.
    destruct (Hfresh _ Hcp) as (_ & _ & ? & ? & ?). done. }
  destruct r as [[] | e]; rewrite Hend; exact Hwl.
Qed.

Lemma initializeToken_new_session_witness :
  ∃ cp, JSMap.get "slack" (registry (exec (initializeToken None) signedIn)) = Some cp
    ∧ cpm_providerName cp = "slack"
    ∧ instantiateChatProvider "xoxp-1" "slack" = Normal (cpm_chatProvider cp).
Proof.
  eexists. split; [vm_compute; reflexivity|].
  destruct (initializeToken_new_session None signedIn "slack" _ eq_refl
              ltac:(vm_compute; reflexivity)) as (Hname & _ & token & Htok & _ & Hinst).
  split; [exact Hname|]. vm_compute. reflexivity.
Defined.

(** X7. [initializeToken] only appends to the registry: the entries it found
    stay where they are, the new ones follow in the order in which the loop
    walked through their providers, one session-construction per new entry,
    and the views are initialized last, and only when the call does not
    throw. *)
Theorem initializeToken_appends (newProvider : option string) (w : World) :
  let w' := exec (initializeToken newProvider) w in
  ∃ new,
    registry w' = registry w ++ new
    ∧ sublist new.*1 (candidates newProvider w)
    ∧ nextSid w' = nextSid w + length new
    ∧ trace w' = trace w ++ map builtEvent new
        ++ match outcome (initializeToken newProvider) w with
           | Normal _ =>
               [ViewsInitialize (JSMap.keys (registry w'))
                  (collectTeams (registry w') (JSMap.keys (registry w')) [])]
           | Throw _ => []
           end.
Proof.
  intros w'. subst w'. unfold exec, outcome.
  destruct (forOf (candidates newProvider w) tokenStep tt w) as [r wl] eqn:Hrun.
  pose proof (initializeToken_ends _ _ _ _ Hrun) as Hend.
  destruct (forOf_tokenStep_appends _ _ _ _ Hrun) as (new & Hreg & Hsub & _ & Hsid & Htr).
  exists new. destruct r as [[] | e]; rewrite Hend; simpl.
  - unfold registry in *. simpl. rewrite Htr, <- app_assoc. by split_and!.
  - rewrite app_nil_r. by split_and!.
Qed.

(** X8. [initializeViewsManager] makes one call, [viewsManager.initialize],
    with the registry's keys in registration order and, for each provider,
    the teams of that provider's session; it changes nothing else. *)
Theorem initializeViewsManager_hands_over (w : World) :
  ∃ providerTeams,
    initializeViewsManager w
    = (Normal tt,
       with_trace (λ t, t ++ [ViewsInitialize (JSMap.keys (registry w)) providerTeams]) w)
    ∧ (∀ p, JSMap.get p providerTeams = cpm_teams <$> JSMap.get p (registry w))
    ∧ (JSMap.wf (registry w) → providerTeams = teamsOf (registry w)).
Proof.
  eexists. split; [apply initializeViewsManager_collects|]. split.
  - intros p. rewrite collectTeams_get.
    destruct (decide (p ∈ JSMap.keys (registry w))) as [Hin | Hni].
    + apply get_is_Some_keys in Hin as [cp ->]. done.
    + apply get_None_keys in Hni. by rewrite Hni.
  - apply collectTeams_wf.
Qed.

Lemma initializeViewsManager_hands_over_witness :
  trace (exec initializeViewsManager running)
  = [ViewsInitialize ["slack"; "vsls"; "discord"]
       [("slack", [ {| team_id := "T1"; team_name := "acme" |} ]);
        ("vsls", []); ("discord", [])]].
Proof.
  destruct (initializeViewsManager_hands_over running) as (teams & Hrun & _ & Hwf).
  unfold exec. rewrite Hrun, (Hwf running_wf). reflexivity.
Defined.

(** ** [getEnabledProviders]: order *)

Lemma filterFrom_sublist {A} (f : A → nat → bool) (l : list A) pos :
  sublist (filterFrom f l pos) l.
Proof.
  revert pos. induction l as [|x l IH]; intros pos; simpl; [done|].
  destruct (f x pos); [by apply sublist_skip|by apply sublist_cons].
Qed.

Lemma filterFrom_NoDup whole :
  NoDup whole →
  ∀ l pre, whole = pre ++ l → filterFrom (keepFirst whole) l (length pre) = l.
Proof.
  intros Hnd. induction l as [|x l IH]; intros pre Hw; simpl; [done|].
  assert (Hk : keepFirst whole x (length pre) = true).
  { unfold keepFirst. rewrite Hw. apply first_occurrence.
    rewrite Hw in Hnd. apply NoDup_app in Hnd as (_ & Hdisj & _).
    intros Hin. apply (Hdisj x Hin). left. }
  rewrite Hk. f_equal.
  specialize (IH (pre ++ [x])). rewrite length_app, Nat.add_1_r in IH.
  apply IH. by rewrite <- app_assoc.
Qed.

Lemma getEnabledProviders_filter w :
  getEnabledProviders w
  = filterFrom (keepFirst (discovered w)) (discovered w) 0.
Proof.
  unfold getEnabledProviders, discovered, filterPos, keepFirst.
  destruct (hasVslsExtension w); [done|]. by rewrite app_nil_r.
Qed.

(** X9. [getEnabledProviders] keeps the providers in the order in which the
    store lists them, vsls from the extension check coming last; when no
    provider is found twice it returns them all unchanged. *)
Theorem getEnabledProviders_order (w : World) :
  sublist (getEnabledProviders w) (discovered w)
  ∧ (NoDup (discovered w) → getEnabledProviders w = discovered w).
Proof.
  rewrite getEnabledProviders_filter. split.
  - apply filterFrom_sublist.
  - intros Hnd. by apply (filterFrom_NoDup _ Hnd (discovered w) []).
Qed.

Lemma getEnabledProviders_order_witness :
  getEnabledProviders (with_mgr (upd_store (IStore.clearProviderState "vsls")) signedIn)
  = ["slack"; "discord"; "vsls"].
Proof.
  apply (proj2 (getEnabledProviders_order
                  (with_mgr (upd_store (IStore.clearProviderState "vsls")) signedIn))).
  unfold discovered. simpl.
  rewrite !NoDup_cons, !not_elem_of_cons.
  split_and!; try done; try apply not_elem_of_nil. apply NoDup_nil_2.
Defined.

(** ** [clearAll] and [signout], composed *)

Lemma destroyed_only_vsls ks (m : list (string * ChatProviderManager)) :
  Forall (λ k, k = "vsls") ks → destroyed ks m = [].
Proof.
  induction 1 as [|k ks -> _ IH]; simpl; [done|]. exact IH.
Qed.

Lemma keys_only_vsls w :
  Forall (λ k, k = "vsls") (JSMap.keys (registry (exec clearAll w))).
Proof.
  unfold exec. destruct (clearAll_spec w) as (w1 & -> & Hreg & _). simpl.
  rewrite Hreg. unfold signedOut. rewrite deleteAll_registered. unfold JSMap.keys.
  apply Forall_forall. intros k ([k' cp] & -> & Hin)%list_elem_of_fmap.
  apply list_elem_of_In, List.filter_In in Hin as [_ Hk].
  by apply bool_decide_eq_true in Hk.
Qed.

Lemma signedOut_after_clearAll w : signedOut (exec clearAll w) = [].
Proof.
  unfold signedOut. pose proof (keys_only_vsls w) as Hall.
  induction Hall as [|k ks -> _ IH]; simpl; [done|]. exact IH.
Qed.

(** X10. [clearAll] is idempotent: a second call destroys nothing and leaves
    the registry, the store and the secret store as the first call left
    them. *)
Theorem clearAll_idempotent (w : World) :
  let w1 := exec clearAll w in
  let w2 := exec clearAll w1 in
  registry w2 = registry w1
  ∧ store (mgr w2) = store (mgr w1)
  ∧ trace w2 = trace w1
  ∧ tokens w2 = tokens w1
  ∧ isTokenInitialized (mgr w2) = false.
Proof.
  intros w1 w2. subst w2 w1.
  destruct (clearAll_spec (exec clearAll w))
    as (w2 & Hrun & Hreg & Hst & Htr & Hflag & _ & Htok & _).
  assert (Hw2 : exec clearAll (exec clearAll w) = w2) by (unfold exec at 1; by rewrite Hrun).
  rewrite Hw2.
  rewrite signedOut_after_clearAll in Hreg, Hst.
  rewrite (destroyed_only_vsls _ _ (keys_only_vsls w)) in Htr.
  simpl in Htr. rewrite app_nil_r in Htr. by split_and!.
Qed.

(** X11. After [clearAll], [signout] clears no credential and executes no
    reset command: it leaves the world as it is. *)
Theorem signout_after_clearAll (w : World) :
  let w1 := exec clearAll w in
  let w2 := exec signout w1 in
  outcome signout w1 = Normal tt
  ∧ trace w2 = trace w1
  ∧ tokens w2 = tokens w
  ∧ mgr w2 = mgr w1.
Proof.
  intros w1 w2. subst w2 w1.
  destruct (signout_spec (exec clearAll w)) as (w2 & Hrun & Hm & Htok & Htr & _).
  assert (Hw2 : exec signout (exec clearAll w) = w2) by (unfold exec at 1; by rewrite Hrun).
  unfold outcome. rewrite Hw2, Hrun. simpl.
  rewrite signedOut_after_clearAll in Htok, Htr.
  simpl in Htok, Htr. rewrite app_nil_r in Htr.
  split_and!; try done. rewrite Htok. unfold exec.
  destruct (clearAll_spec w) as (w1 & -> & _ & _ & _ & _ & _ & Ht1 & _). exact Ht1.
Qed.

Lemma clearTokens_idempotent ps t : clearTokens ps (clearTokens ps t) = clearTokens ps t.
Proof.
  apply map_eq. intros q. rewrite !clearTokens_lookup. by case_decide.
Qed.

(** X12. Calling [signout] again clears nothing more, but as long as a
    session of a provider other than vsls is registered every call executes
    the reset command once more. *)
Theorem signout_again (w : World) :
  let w1 := exec signout w in
  let w2 := exec signout w1 in
  tokens w2 = tokens w1
  ∧ registry w2 = registry w
  ∧ (signedOut w ≠ [] → resets (trace w2) = resets (trace w) + 2)
  ∧ (signedOut w = [] → resets (trace w2) = resets (trace w)).
Proof.
  intros w1 w2. subst w2 w1.
  assert (Hm : mgr (exec signout w) = mgr w).
  { unfold exec. destruct (signout_spec w) as (w1 & -> & Hm1 & _). exact Hm1. }
  assert (Hso : signedOut (exec signout w) = signedOut w).
  { unfold signedOut, registry. by rewrite Hm. }
  assert (Htok : ∀ w0, tokens (exec signout w0) = clearTokens (signedOut w0) (tokens w0)).
  { intros w0. unfold exec. destruct (signout_spec w0) as (w1 & -> & _ & Ht & _). exact Ht. }
  split_and!.
  - rewrite (Htok (exec signout w)), Hso, (Htok w). apply clearTokens_idempotent.
  - unfold registry.
    assert (Hm2 : mgr (exec signout (exec signout w)) = mgr (exec signout w)).
    { unfold exec at 1.
      destruct (signout_spec (exec signout w)) as (w1 & -> & Hm1 & _). exact Hm1. }
    by rewrite Hm2, Hm.
  - intros Hne. rewrite !signout_resets, Hso.
    rewrite !bool_decide_eq_false_2 by done. lia.
  - intros He. rewrite !signout_resets, Hso.
    rewrite !bool_decide_eq_true_2 by done. lia.
Qed.

Lemma signout_again_witness :
  resets (trace (exec signout (exec signout running))) = resets (trace running) + 2.
Proof.
  apply (proj1 (proj2 (proj2 (signout_again running)))).
  vm_compute. discriminate.
Defined.

Lemma initializeToken_built newProvider w :
  ∃ new wl,
    registry (exec (initializeToken newProvider) w) = registry w ++ new
    ∧ Forall (freshEntry w wl) new.
Proof.
  unfold exec.
  destruct (forOf (candidates newProvider w) tokenStep tt w) as [r wl] eqn:Hrun.
  pose proof (initializeToken_ends _ _ _ _ Hrun) as Hend.
  destruct (forOf_tokenStep_appends _ _ _ _ Hrun) as (new & Hreg & _ & Hfresh & _ & _).
  exists new, wl. destruct r as [[] | e]; by rewrite Hend.
Qed.

(** X13. Signing out is effective: a provider other than vsls that had a
    session gets none when [signout], [clearAll] and then [initializeToken]
    run, whatever is passed as [newProvider]. *)
Theorem signed_out_stays_out (w : World) (newProvider : option string) (p : string) :
  p ≠ "vsls" →
  is_Some (JSMap.get p (registry w)) →
  JSMap.get p
    (registry (exec (initializeToken newProvider) (exec clearAll (exec signout w))))
  = None.
Proof.
  intros Hp Hsome.
  set (w1 := exec signout w). set (w2 := exec clearAll w1).
  assert (H1 : mgr w1 = mgr w ∧ tokens w1 !! p = None).
  { subst w1. unfold exec. destruct (signout_spec w) as (w' & -> & Hm & Ht & _). simpl.
    split; [done|]. rewrite Ht, clearTokens_lookup.
    rewrite decide_True; [done|]. by apply signedOut_elem. }
  destruct H1 as [Hm1 Ht1].
  assert (H2 : JSMap.get p (registry w2) = None ∧ tokens w2 !! p = None).
  { subst w2. unfold exec. destruct (clearAll_spec w1)
      as (w' & -> & Hreg & _ & _ & _ & _ & Ht & _). simpl.
    rewrite Hreg, get_deleteAll, Ht. split; [|done].
    rewrite decide_True; [done|]. apply signedOut_elem. unfold registry.
    by rewrite Hm1. }
  destruct H2 as [Hnone Ht2].
  destruct (initializeToken_built newProvider w2) as (new & wl & Hreg & Hfresh).
  rewrite Hreg, get_app, Hnone.
  destruct (JSMap.get p new) as [cp|] eqn:Hcp; [|done]. exfalso.
  apply get_Some_elem in Hcp. rewrite Forall_forall in Hfresh.
  destruct (Hfresh _ Hcp) as (_ & _ & _ & _ & token & Htok & _).
  simpl in Htok. congruence.
Qed.

Lemma signed_out_stays_out_witness :
  JSMap.get "slack"
    (registry (exec (initializeToken (Some "slack")) (exec clearAll (exec signout running))))
  = None.
Proof.
  apply (signed_out_stays_out running (Some "slack") "slack"); [done|]. by eexists.
Defined.

(** ** Dispatch, composed with [clearAll] *)

Lemma dispatch_get w providerName op :
  dispatch w providerName op
  = match JSMap.get providerName (registry w) with
    | Some cp => Forwarded cp (callOf op)
    | None => Completes (Normal (absentResult op))
    end.
Proof.
  unfold registry.
  destruct op; simpl;
    unfold isAuthenticated, createIMChannel, getUserPresence, getCurrentUserPresence,
      loadChannelHistory, updateReadMarker, sendMessage, updateSelfPresence,
      addReaction, removeReaction, fetchThreadReplies, updateMessageReply,
      updateMessages, updateChannelMarked, updatePresenceForUser, getChannel,
      fetchUsers, fetchChannels, getMessages, getUnreadCount, dispatchTo;
    by destruct (JSMap.get providerName (chatProviders (mgr w))).
Qed.

(** X14. After [clearAll] every dispatch method called for a provider other
    than vsls answers with its absent result, and called for vsls it still
    reaches the session vsls had. *)
Theorem dispatch_after_clearAll (w : World) (op : DispatchOp) :
  (∀ p, p ≠ "vsls" →
     dispatch (exec clearAll w) p op = Completes (Normal (absentResult op)))
  ∧ dispatch (exec clearAll w) "vsls" op = dispatch w "vsls" op.
Proof.
  assert (Hreg : registry (exec clearAll w) = deleteAll (signedOut w) (registry w)).
  { unfold exec. destruct (clearAll_spec w) as (w' & -> & Hreg & _). exact Hreg. }
  split.
  - intros p Hp. rewrite dispatch_get, Hreg, get_deleteAll.
    destruct (decide (p ∈ signedOut w)) as [|Hni]; [done|].
    destruct (JSMap.get p (registry w)) eqn:Hget; [|done].
    exfalso. apply Hni, signedOut_elem. by rewrite Hget.
  - rewrite !dispatch_get, Hreg, get_deleteAll.
    rewrite decide_False; [done|]. rewrite signedOut_elem. tauto.
Qed.

Lemma dispatch_after_clearAll_witness :
  dispatch (exec clearAll running) "slack" op_getMessages = Completes (Normal emptyObject)
  ∧ dispatch (exec clearAll running) "vsls" op_fetchUsers = Forwarded vslsSession cp_fetchUsers.
Proof.
  destruct (dispatch_after_clearAll running op_getMessages) as [Hslack _].
  destruct (dispatch_after_clearAll running op_fetchUsers) as [_ Hvsls].
  split; [by apply Hslack|]. rewrite Hvsls. reflexivity.
Defined.

(** ** [getChannelLabels], composed *)

Lemma filter_filter_none {A} (f g : A → bool) (l : list A) :
  (∀ x, g x = true → f x = false) → List.filter f (List.filter g l) = [].
Proof.
  intros H. induction l as [|x l IH]; simpl; [done|].
  destruct (g x) eqn:Hg; [|done]. simpl. by rewrite (H x Hg).
Qed.

(** X15. After [clearAll] the labels of all sessions together are the labels
    vsls had, and a provider other than vsls has none. *)
Theorem getChannelLabels_after_clearAll (w : World) :
  getChannelLabels (exec clearAll w) None = getChannelLabels w (Some "vsls")
  ∧ ∀ p, p ≠ "vsls" → p ≠ "" → getChannelLabels (exec clearAll w) (Some p) = [].
Proof.
  assert (Hreg : registry (exec clearAll w)
            = List.filter (λ e, bool_decide (e.1 = "vsls")) (registry w)).
  { unfold exec. destruct (clearAll_spec w) as (w' & -> & Hreg & _). simpl.
    rewrite Hreg. apply deleteAll_registered. }
  split.
  - rewrite !getChannelLabels_filter, Hreg. simpl. rewrite filter_all.
    do 2 f_equal. apply List.filter_ext. intros [k cp]. simpl.
    apply bool_decide_ext. split; [by intros ->|by intros [= ->]].
  - intros p Hp Hne. rewrite getChannelLabels_filter, Hreg.
    rewrite filter_filter_none; [done|].
    intros [k cp] Hk%bool_decide_eq_true. simpl in *. subst k.
    assert (Htruthy : truthy p = true) by by apply bool_decide_eq_true_2.
    rewrite Htruthy. simpl. apply bool_decide_eq_false_2. congruence.
Qed.

Lemma getChannelLabels_after_clearAll_witness :
  getChannelLabels (exec clearAll running) (Some "slack") = [].
Proof.
  by apply (proj2 (getChannelLabels_after_clearAll running) "slack").
Defined.

(** X16. In a registry with distinct keys, none of them empty, the labels of
    all sessions together are the labels asked for provider by provider, in
    registration order. *)
Theorem getChannelLabels_by_provider (w : World) :
  JSMap.wf (registry w) → "" ∉ JSMap.keys (registry w) →
  getChannelLabels w None
  = concat (map (λ k, getChannelLabels w (Some k)) (JSMap.keys (registry w))).
Proof.
  intros Hwf Hne. rewrite getChannelLabels_filter. simpl. rewrite filter_all.
  f_equal. unfold JSMap.keys.
  change ((registry w).*1) with (map fst (registry w)). rewrite List.map_map.
  apply List.map_ext_in. intros [k cp] Hin%list_elem_of_In. simpl.
  rewrite getChannelLabels_filter.
  assert (Hk : k ≠ "").
  { intros ->. apply Hne. apply list_elem_of_fmap. by exists ("", cp). }
  assert (Htruthy : truthy k = true) by by apply bool_decide_eq_true_2.
  simpl. rewrite Htruthy. simpl.
  rewrite (filter_key_wf _ _ Hwf), (elem_get_wf _ _ _ Hwf Hin). simpl.
  by rewrite app_nil_r.
Qed.

Lemma getChannelLabels_by_provider_witness :
  getChannelLabels running None
  = getChannelLabels running (Some "slack") ++ getChannelLabels running (Some "vsls")
    ++ getChannelLabels running (Some "discord") ++ [].
Proof.
  apply (getChannelLabels_by_provider running running_wf).
  unfold JSMap.keys, running, registry. simpl.
  rewrite !not_elem_of_cons. split_and!; try done. apply not_elem_of_nil.
Defined.

(** ** The contact provider *)

(** X17. [initializeVslsContactProvider] touches nothing but the contact
    provider and its notifications: the registry, the store, the stored
    tokens, the flag and the session identities stay as they were, and the
    events already recorded stay in front. *)
Theorem initializeVslsContactProvider_frame (w : World) :
  let w' := exec initializeVslsContactProvider w in
  registry w' = registry w
  ∧ store (mgr w') = store (mgr w)
  ∧ tokens w' = tokens w
  ∧ isTokenInitialized (mgr w') = isTokenInitialized (mgr w)
  ∧ nextSid w' = nextSid w
  ∧ trace w `prefix_of` trace w'.
Proof.
  unfold exec. rewrite initializeVslsContactProvider_cases. simpl.
  destruct (hasVslsExtension w); [|by split_and!].
  destruct (nonVslsProviders w) as [|p rest]; [by split_and!|].
  destruct (IStore.getCurrentUser (store (mgr w)) p) as [cu|]; [|by split_and!].
  destruct (isNotAlreadyInit w); [|by split_and!].
  unfold bound. simpl. split_and!; try done. by eexists.
Qed.

Lemma initializeVslsContactProvider_initialized w :
  isNotAlreadyInit w = false → exec initializeVslsContactProvider w = w.
Proof.
  intros Hinit. unfold exec. rewrite initializeVslsContactProvider_cases. simpl.
  rewrite Hinit. destruct (hasVslsExtension w); [|done].
  destruct (nonVslsProviders w) as [|p rest]; [done|].
  by destruct (IStore.getCurrentUser (store (mgr w)) p).
Qed.

(** X18. Once the contact provider reports that it is initialized,
    [initializeVslsContactProvider] changes nothing: it builds no second
    contact provider and notifies nobody. *)
Theorem initializeVslsContactProvider_once (w : World) (v : VslsContactProvider) :
  vslsContactProvider (mgr w) = Some v →
  vcp_isInitialized v = true →
  initializeVslsContactProvider w = (Normal tt, w).
Proof.
  intros Hv Hinit.
  assert (Hno : isNotAlreadyInit w = false).
  { unfold isNotAlreadyInit. by rewrite Hv, Hinit. }
  pose proof (initializeVslsContactProvider_initialized w Hno) as Hexec.
  unfold exec in Hexec. rewrite initializeVslsContactProvider_cases in Hexec |- *.
  simpl in Hexec. by rewrite Hexec.
Qed.

Lemma initializeVslsContactProvider_once_witness :
  initializeVslsContactProvider (exec initializeVslsContactProvider running)
  = (Normal tt, exec initializeVslsContactProvider running).
Proof.
  apply (initializeVslsContactProvider_once
           (exec initializeVslsContactProvider running)
           {| vcp_presenceProvider := "slack"; vcp_isInitialized := true |});
    reflexivity.
Defined.

(** X19. When registering initializes the contact provider, running
    [initializeVslsContactProvider] a second time changes nothing. *)
Theorem initializeVslsContactProvider_idempotent (w : World) :
  registerInitializes w = true →
  exec initializeVslsContactProvider (exec initializeVslsContactProvider w)
  = exec initializeVslsContactProvider w.
Proof.
  intros Hreg.
  assert (Hcases : exec initializeVslsContactProvider w = w
                   ∨ isNotAlreadyInit (exec initializeVslsContactProvider w) = false).
  { unfold exec. rewrite initializeVslsContactProvider_cases. simpl.
    destruct (hasVslsExtension w); [|by left].
    destruct (nonVslsProviders w) as [|p rest]; [by left|].
    destruct (IStore.getCurrentUser (store (mgr w)) p) as [cu|]; [|by left].
    destruct (isNotAlreadyInit w) eqn:Hinit; [|by right].
    right. unfold isNotAlreadyInit, bound. simpl. by rewrite Hreg. }
  destruct Hcases as [Hsame | Hinit].
  - by rewrite !Hsame.
  - by apply initializeVslsContactProvider_initialized.
Qed.

Lemma initializeVslsContactProvider_idempotent_witness :
  exec initializeVslsContactProvider (exec initializeVslsContactProvider running)
  = exec initializeVslsContactProvider running.
Proof. apply (initializeVslsContactProvider_idempotent running). reflexivity. Defined.

(** ** Fan-out over the sessions *)

Lemma forEntries_all awaited call fails entries :
  (∀ e, e ∈ entries → raised awaited (fails e.2 call) = None) →
  forEntries awaited call fails entries = (map (λ e, (e.2, call)) entries, Normal tt).
Proof.
  induction entries as [|e rest IH]; intros Hall; simpl; [done|].
  rewrite (Hall e) by apply list_elem_of_here.
  rewrite IH; [done|]. intros e' He'. apply Hall. by apply list_elem_of_further.
Qed.


Lemma fanOut_forEntries call w fails :
  fanOut call w fails = forEntries (awaits call) call fails (registry w).
Proof. by destruct call. Qed.

(** X20. When the call fails for no session, each of the five fan-out methods
    calls every registered session exactly once, in registration order, and
    completes. *)
Theorem fanOut_all (call : FanOutCall) (w : World)
    (fails : ChatProviderManager → FanOutCall → option Failure) :
  (∀ e, e ∈ registry w → fails e.2 call = None) →
  fanOut call w fails = (map (λ e, (e.2, call)) (registry w), Normal tt).
Proof.
  intros Hall. rewrite fanOut_forEntries. apply forEntries_all.
  intros e He. by rewrite (Hall e He).
Qed.

Lemma fanOut_all_witness :
  fanOut cp_initializeUsersState running (λ _ _, None)
  = ([(slackSession, cp_initializeUsersState);
      (vslsSession, cp_initializeUsersState);
      (discordSession, cp_initializeUsersState)], Normal tt).
Proof. by apply (fanOut_all cp_initializeUsersState running (λ _ _, None)). Defined.



(** X22. [subscribePresenceForAll] does not await the calls it makes: as long
    as no call throws, it calls every registered session exactly once, in
    registration order, and completes, also when calls are rejected. *)
Theorem subscribePresenceForAll_not_awaited (w : World)
    (fails : ChatProviderManager → FanOutCall → option Failure) :
  (∀ e err, e ∈ registry w → fails e.2 cp_subscribeForPresence ≠ Some (Thrown err)) →
  subscribePresenceForAll w fails
  = (map (λ e, (e.2, cp_subscribeForPresence)) (registry w), Normal tt).
Proof.
  intros Hall. apply forEntries_all. intros e He.
  specialize (Hall e). destruct (fails e.2 cp_subscribeForPresence) as [[err | err]|];
    [|done..]. by destruct (Hall err He).
Qed.

Lemma subscribePresenceForAll_not_awaited_witness :
  subscribePresenceForAll running
    (λ cp _, if bool_decide (cpm_providerName cp = "vsls")
             then Some (Rejected "offline") else None)
  = ([(slackSession, cp_subscribeForPresence);
      (vslsSession, cp_subscribeForPresence);
      (discordSession, cp_subscribeForPresence)], Normal tt).
Proof.
  apply (subscribePresenceForAll_not_awaited running
           (λ cp _, if bool_decide (cpm_providerName cp = "vsls")
                    then Some (Rejected "offline") else None)).
  intros e err He. by case_bool_decide.
Defined.
